(** * The site script [js/main.js] as a state machine over the browser page

    The script is DOM-event wiring: every handler reads and writes the
    state of the page (class lists, attributes, inline styles, local
    storage, the [ThemeManager] instance).  The embedding keeps that state
    in one record, [World], and writes each handler as a computation in a
    state-and-exception monad [JS]: a JavaScript exception leaves the
    mutations made before it in place, as in the browser. *)

From stdpp Require Import base option list strings gmap.
From Stdlib Require Import ZArith Lia.

Open Scope string_scope.
Open Scope Z_scope.
Open Scope list_scope.
Open Scope stdpp_scope.

(** ** Data model *)

(** A handle on a DOM element. *)
Definition ElemId := nat.

Inductive JsError :=
  | TypeError     (* property access on [null] *)
  | SyntaxError.  (* [querySelector] on a string that is no selector *)

Inductive Outcome (A : Type) :=
  | Return (a : A)
  | Throw (e : JsError).
Arguments Return {A} a.
Arguments Throw {A} e.

(** The instance built by [new ThemeManager()]: its three fields. *)
Record ThemeManager := mkThemeManager {
  themeToggle : option ElemId;   (* [null] is [None] *)
  themeIcon : option ElemId;
  currentTheme : string;
}.

(** A control of the contact form, as [FormData] and [reset] see it. *)
Record FormControl := mkFormControl {
  fc_name : string;
  fc_value : string;
  fc_default : string;
}.

(** Callbacks handed to [setTimeout]. *)
Inductive Task :=
  | ResetToggleTransform         (* [this.themeToggle.style.transform = ''] *)
  | TypeWriter                   (* the subtitle typing step *)
  | ShowCard (card : ElemId).    (* opacity and transform of a card *)

Inductive ScrollRequest :=
  | IntoView (target : ElemId)   (* [target.scrollIntoView(smooth, start)] *)
  | ToTop.                       (* [window.scrollTo(top: 0, smooth)] *)

(** The document as the selectors of the script see it.  The markup is
    not part of the script, and the script never adds, removes or renames
    an element, so the answers to its queries are data of the page. *)
Record Page := mkPage {
  documentElement : ElemId;
  getElementById : string → option ElemId;
  querySelector : string → option ElemId;
  querySelectorAll : string → list ElemId;   (* in document order *)
  selectorValid : string → bool;             (* does the string parse as a selector *)
}.

Record World := mkWorld {
  (* elements *)
  classList : gmap ElemId (list string);
  attributes : gmap (ElemId * string) string;
  style : gmap (ElemId * string) string;
  textContent : gmap ElemId string;
  offsetTop : gmap ElemId Z;
  formControls : list FormControl;
  (* window *)
  scrollY : Z;                               (* also [window.pageYOffset] *)
  prefersDark : bool;                        (* [(prefers-color-scheme: dark)] *)
  localStorage : gmap string string;
  (* state of the script *)
  manager : ThemeManager;
  themeListeners : bool;                     (* registered by [ThemeManager.init] *)
  observed : list ElemId;
  typeText : string;
  typeIndex : nat;
  timers : list (nat * Task);
  (* effects on the outside *)
  alerts : list string;
  scrollRequests : list ScrollRequest;
  defaultPrevented : bool;
  errors : list JsError;                     (* uncaught, reported by the browser *)
}.

Definition set_classList (v : gmap ElemId (list string)) (w : World) : World :=
  mkWorld v (attributes w) (style w) (textContent w) (offsetTop w) (formControls w)
    (scrollY w) (prefersDark w) (localStorage w) (manager w) (themeListeners w)
    (observed w) (typeText w) (typeIndex w) (timers w) (alerts w) (scrollRequests w)
    (defaultPrevented w) (errors w).
Definition set_attributes (v : gmap (ElemId * string) string) (w : World) : World :=
  mkWorld (classList w) v (style w) (textContent w) (offsetTop w) (formControls w)
    (scrollY w) (prefersDark w) (localStorage w) (manager w) (themeListeners w)
    (observed w) (typeText w) (typeIndex w) (timers w) (alerts w) (scrollRequests w)
    (defaultPrevented w) (errors w).
Definition set_style (v : gmap (ElemId * string) string) (w : World) : World :=
  mkWorld (classList w) (attributes w) v (textContent w) (offsetTop w) (formControls w)
    (scrollY w) (prefersDark w) (localStorage w) (manager w) (themeListeners w)
    (observed w) (typeText w) (typeIndex w) (timers w) (alerts w) (scrollRequests w)
    (defaultPrevented w) (errors w).
Definition set_textContent (v : gmap ElemId string) (w : World) : World :=
  mkWorld (classList w) (attributes w) (style w) v (offsetTop w) (formControls w)
    (scrollY w) (prefersDark w) (localStorage w) (manager w) (themeListeners w)
    (observed w) (typeText w) (typeIndex w) (timers w) (alerts w) (scrollRequests w)
    (defaultPrevented w) (errors w).
Definition set_formControls (v : list FormControl) (w : World) : World :=
  mkWorld (classList w) (attributes w) (style w) (textContent w) (offsetTop w) v
    (scrollY w) (prefersDark w) (localStorage w) (manager w) (themeListeners w)
    (observed w) (typeText w) (typeIndex w) (timers w) (alerts w) (scrollRequests w)
    (defaultPrevented w) (errors w).
Definition set_scrollY (v : Z) (w : World) : World :=
  mkWorld (classList w) (attributes w) (style w) (textContent w) (offsetTop w) (formControls w)
    v (prefersDark w) (localStorage w) (manager w) (themeListeners w)
    (observed w) (typeText w) (typeIndex w) (timers w) (alerts w) (scrollRequests w)
    (defaultPrevented w) (errors w).
Definition set_prefersDark (v : bool) (w : World) : World :=
  mkWorld (classList w) (attributes w) (style w) (textContent w) (offsetTop w) (formControls w)
    (scrollY w) v (localStorage w) (manager w) (themeListeners w)
    (observed w) (typeText w) (typeIndex w) (timers w) (alerts w) (scrollRequests w)
    (defaultPrevented w) (errors w).
Definition set_localStorage (v : gmap string string) (w : World) : World :=
  mkWorld (classList w) (attributes w) (style w) (textContent w) (offsetTop w) (formControls w)
    (scrollY w) (prefersDark w) v (manager w) (themeListeners w)
    (observed w) (typeText w) (typeIndex w) (timers w) (alerts w) (scrollRequests w)
    (defaultPrevented w) (errors w).
Definition set_manager (v : ThemeManager) (w : World) : World :=
  mkWorld (classList w) (attributes w) (style w) (textContent w) (offsetTop w) (formControls w)
    (scrollY w) (prefersDark w) (localStorage w) v (themeListeners w)
    (observed w) (typeText w) (typeIndex w) (timers w) (alerts w) (scrollRequests w)
    (defaultPrevented w) (errors w).
Definition set_themeListeners (v : bool) (w : World) : World :=
  mkWorld (classList w) (attributes w) (style w) (textContent w) (offsetTop w) (formControls w)
    (scrollY w) (prefersDark w) (localStorage w) (manager w) v
    (observed w) (typeText w) (typeIndex w) (timers w) (alerts w) (scrollRequests w)
    (defaultPrevented w) (errors w).
Definition set_observed (v : list ElemId) (w : World) : World :=
  mkWorld (classList w) (attributes w) (style w) (textContent w) (offsetTop w) (formControls w)
    (scrollY w) (prefersDark w) (localStorage w) (manager w) (themeListeners w)
    v (typeText w) (typeIndex w) (timers w) (alerts w) (scrollRequests w)
    (defaultPrevented w) (errors w).
Definition set_typeText (v : string) (w : World) : World :=
  mkWorld (classList w) (attributes w) (style w) (textContent w) (offsetTop w) (formControls w)
    (scrollY w) (prefersDark w) (localStorage w) (manager w) (themeListeners w)
    (observed w) v (typeIndex w) (timers w) (alerts w) (scrollRequests w)
    (defaultPrevented w) (errors w).
Definition set_typeIndex (v : nat) (w : World) : World :=
  mkWorld (classList w) (attributes w) (style w) (textContent w) (offsetTop w) (formControls w)
    (scrollY w) (prefersDark w) (localStorage w) (manager w) (themeListeners w)
    (observed w) (typeText w) v (timers w) (alerts w) (scrollRequests w)
    (defaultPrevented w) (errors w).
Definition set_timers (v : list (nat * Task)) (w : World) : World :=
  mkWorld (classList w) (attributes w) (style w) (textContent w) (offsetTop w) (formControls w)
    (scrollY w) (prefersDark w) (localStorage w) (manager w) (themeListeners w)
    (observed w) (typeText w) (typeIndex w) v (alerts w) (scrollRequests w)
    (defaultPrevented w) (errors w).
Definition set_alerts (v : list string) (w : World) : World :=
  mkWorld (classList w) (attributes w) (style w) (textContent w) (offsetTop w) (formControls w)
    (scrollY w) (prefersDark w) (localStorage w) (manager w) (themeListeners w)
    (observed w) (typeText w) (typeIndex w) (timers w) v (scrollRequests w)
    (defaultPrevented w) (errors w).
Definition set_scrollRequests (v : list ScrollRequest) (w : World) : World :=
  mkWorld (classList w) (attributes w) (style w) (textContent w) (offsetTop w) (formControls w)
    (scrollY w) (prefersDark w) (localStorage w) (manager w) (themeListeners w)
    (observed w) (typeText w) (typeIndex w) (timers w) (alerts w) v
    (defaultPrevented w) (errors w).
Definition set_defaultPrevented (v : bool) (w : World) : World :=
  mkWorld (classList w) (attributes w) (style w) (textContent w) (offsetTop w) (formControls w)
    (scrollY w) (prefersDark w) (localStorage w) (manager w) (themeListeners w)
    (observed w) (typeText w) (typeIndex w) (timers w) (alerts w) (scrollRequests w)
    v (errors w).
Definition set_errors (v : list JsError) (w : World) : World :=
  mkWorld (classList w) (attributes w) (style w) (textContent w) (offsetTop w) (formControls w)
    (scrollY w) (prefersDark w) (localStorage w) (manager w) (themeListeners w)
    (observed w) (typeText w) (typeIndex w) (timers w) (alerts w) (scrollRequests w)
    (defaultPrevented w) v.

(** ** The monad of handlers *)

Definition JS (A : Type) : Type := World → World * Outcome A.

Global Instance JS_ret : MRet JS := λ A a w, (w, Return a).
Global Instance JS_bind : MBind JS := λ A B k m w,
  match m w with
  | (w', Return a) => k a w'
  | (w', Throw e) => (w', Throw e)
  end.

Definition throw {A} (e : JsError) : JS A := λ w, (w, Throw e).
Definition gets {A} (f : World → A) : JS A := λ w, (w, Return (f w)).
Definition modify (f : World → World) : JS unit := λ w, (f w, Return tt).

(** [list.forEach(f)]: an exception in the callback ends the loop. *)
Fixpoint forEach {A} (l : list A) (f : A → JS unit) : JS unit :=
  match l with
  | [] => mret tt
  | x :: l' => f x ;; forEach l' f
  end.

(** [list.forEach((x, index) => ...)]. *)
Fixpoint forEachFrom {A} (i : nat) (l : list A) (f : A → nat → JS unit) : JS unit :=
  match l with
  | [] => mret tt
  | x :: l' => f x i ;; forEachFrom (S i) l' f
  end.

(** Property access on a reference that may be [null]. *)
Definition deref (o : option ElemId) : JS ElemId :=
  match o with
  | Some e => mret e
  | None => throw TypeError
  end.

(** ** Browser primitives *)

Definition classes (w : World) (e : ElemId) : list string :=
  default [] (classList w !! e).

Definition classList_add (e : ElemId) (c : string) : JS unit :=
  modify (λ w,
    if bool_decide (c ∈ classes w e) then w
    else set_classList (<[e := classes w e ++ [c]]> (classList w)) w).

Definition classList_remove (e : ElemId) (c : string) : JS unit :=
  modify (λ w,
    if bool_decide (c ∈ classes w e)
    then set_classList (<[e := filter (λ x, x ≠ c) (classes w e)]> (classList w)) w
    else w).

Definition classList_toggle (e : ElemId) (c : string) : JS unit :=
  present ← gets (λ w, bool_decide (c ∈ classes w e));
  if present : bool then classList_remove e c else classList_add e c.

(** [e.className = s]: the class list becomes the tokens of [s]. *)
Definition className_assign (e : ElemId) (s : string) : JS unit :=
  modify (λ w, set_classList (<[e := String.words s]> (classList w)) w).

Definition getAttribute (e : ElemId) (name : string) : JS (option string) :=
  gets (λ w, attributes w !! (e, name)).

Definition setAttribute (e : ElemId) (name value : string) : JS unit :=
  modify (λ w, set_attributes (<[(e, name) := value]> (attributes w)) w).

(** [e.style.prop = value]. *)
Definition style_assign (e : ElemId) (prop value : string) : JS unit :=
  modify (λ w, set_style (<[(e, prop) := value]> (style w)) w).

Definition localStorage_getItem (key : string) : JS (option string) :=
  gets (λ w, localStorage w !! key).

Definition localStorage_setItem (key value : string) : JS unit :=
  modify (λ w, set_localStorage (<[key := value]> (localStorage w)) w).

Definition setTimeout (task : Task) (delay : nat) : JS unit :=
  modify (λ w, set_timers (timers w ++ [(delay, task)]) w).

Definition alert (msg : string) : JS unit :=
  modify (λ w, set_alerts (alerts w ++ [msg]) w).

Definition preventDefault : JS unit := modify (set_defaultPrevented true).

Definition scrollIntoView (target : ElemId) : JS unit :=
  modify (λ w, set_scrollRequests (scrollRequests w ++ [IntoView target]) w).

(** Truthiness of a string-or-null value: [null] and [''] are falsy. *)
Definition truthy (o : option string) : bool :=
  match o with
  | Some s => bool_decide (s ≠ "")
  | None => false
  end.

(** [o || d] on a string-or-null value. *)
Definition or_else (o : option string) (d : string) : string :=
  match o with
  | Some s => if bool_decide (s ≠ "") then s else d
  | None => d
  end.

(** String conversion of a string-or-null value, as in a template literal
    or a selector argument. *)
Definition js_string (o : option string) : string := default "null" o.

Definition dquote : string := String (Ascii.ascii_of_nat 34) EmptyString.

(** The selector of line 2, [a[href^=<dq>#<dq>]] with [<dq>] the double quote. *)
Definition anchorSelector : string := "a[href^=" +:+ dquote +:+ "#" +:+ dquote +:+ "]".

(** ** The handlers of [js/main.js] *)

Record IntersectionEntry := mkEntry {
  target : ElemId;
  isIntersecting : bool;
}.

Section Script.
Context (pg : Page).

(** [document.querySelector(sel)] on a computed string. *)
Definition document_querySelector (sel : string) : JS (option ElemId) :=
  if selectorValid pg sel then mret (querySelector pg sel) else throw SyntaxError.

(** Lines 2-19: the click listener of every [a[href^=#]]. *)
Definition anchor_onClick (this : ElemId) : JS unit :=
  preventDefault ;;
  href ← getAttribute this "href";
  target ← document_querySelector (js_string href);
  match target with
  | Some t =>
      scrollIntoView t ;;
      forEach (querySelectorAll pg ".nav-links a") (λ link,
        classList_remove link "active") ;;
      classList_add this "active"
  | None => mret tt
  end.

(** Lines 22-29: the hamburger listener, registered when both exist. *)
Definition hamburger : option ElemId := querySelector pg ".hamburger".
Definition navLinks : option ElemId := querySelector pg ".nav-links".

Definition hamburger_onClick : JS unit :=
  nl ← deref navLinks;
  classList_toggle nl "active".

(** Lines 32-38: the click listener of every [.nav-links a]. *)
Definition navLink_onClick : JS unit :=
  match navLinks with
  | Some nl => classList_remove nl "active"
  | None => mret tt
  end.

(** Lines 41-94: [ThemeManager]. *)
Definition this_themeToggle : JS ElemId :=
  m ← gets manager; deref (themeToggle m).
Definition this_themeIcon : JS ElemId :=
  m ← gets manager; deref (themeIcon m).

Definition ThemeManager_setTheme (theme : string) : JS unit :=
  modify (λ w, set_manager
    (mkThemeManager (themeToggle (manager w)) (themeIcon (manager w)) theme) w) ;;
  setAttribute (documentElement pg) "data-theme" theme ;;
  (if bool_decide (theme = "dark") then
     icon ← this_themeIcon;
     className_assign icon "fas fa-sun" ;;
     toggle ← this_themeToggle;
     setAttribute toggle "aria-label" "Switch to light mode"
   else
     icon ← this_themeIcon;
     className_assign icon "fas fa-moon" ;;
     toggle ← this_themeToggle;
     setAttribute toggle "aria-label" "Switch to dark mode") ;;
  localStorage_setItem "theme" theme.

Definition ThemeManager_toggleTheme : JS unit :=
  cur ← gets (λ w, currentTheme (manager w));
  let newTheme := if bool_decide (cur = "light") then "dark" else "light" in
  ThemeManager_setTheme newTheme ;;
  toggle ← this_themeToggle;
  style_assign toggle "transform" "rotate(360deg)" ;;
  setTimeout ResetToggleTransform 300.

(** The listener of the media query [(prefers-color-scheme: dark)]. *)
Definition ThemeManager_onSystemThemeChange (matches : bool) : JS unit :=
  stored ← localStorage_getItem "theme";
  if negb (truthy stored)
  then ThemeManager_setTheme (if matches then "dark" else "light")
  else mret tt.

Definition ThemeManager_init : JS unit :=
  cur ← gets (λ w, currentTheme (manager w));
  ThemeManager_setTheme cur ;;
  (* [this.themeToggle.addEventListener('click', ...)], then the media
     query listener *)
  _ ← this_themeToggle;
  modify (set_themeListeners true).

Definition ThemeManager_new : JS unit :=
  stored ← localStorage_getItem "theme";
  modify (set_manager
    (mkThemeManager (getElementById pg "themeToggle") (getElementById pg "themeIcon")
       (or_else stored "light"))) ;;
  ThemeManager_init.

(** Lines 107-113: the callback of the intersection observer. *)
Definition observer_callback (entries : list IntersectionEntry) : JS unit :=
  forEach entries (λ entry,
    if isIntersecting entry then classList_add (target entry) "fade-in" else mret tt).

Definition observer_observe (el : ElemId) : JS unit :=
  modify (λ w,
    if bool_decide (el ∈ observed w) then w else set_observed (observed w ++ [el]) w).

(** Lines 122-144: the submit listener of [#contactForm]. *)
Definition FormData_get (controls : list FormControl) (name : string) : option string :=
  (λ p, fc_value p.2) <$> list_find (λ c, fc_name c = name) controls.

Definition form_reset : JS unit :=
  modify (λ w, set_formControls
    ((λ c, mkFormControl (fc_name c) (fc_default c) (fc_default c)) <$> formControls w) w).

Definition contactForm_onSubmit : JS unit :=
  preventDefault ;;
  formData ← gets formControls;
  let name := FormData_get formData "name" in
  let email := FormData_get formData "email" in
  let message := FormData_get formData "message" in
  if negb (truthy name) || negb (truthy email) || negb (truthy message) then
    alert "Please fill in all fields."
  else
    alert "Thank you for your message! I'll get back to you soon." ;;
    form_reset.

(** Lines 147-155: hover on a [.social-icon]. *)
Definition socialIcon_onMouseEnter (this : ElemId) : JS unit :=
  style_assign this "transform" "translateY(-3px) scale(1.1)".
Definition socialIcon_onMouseLeave (this : ElemId) : JS unit :=
  style_assign this "transform" "translateY(0) scale(1)".

(** Lines 158-169: navbar background on scroll. *)
Definition navbar_onScroll : JS unit :=
  let navbar := querySelector pg ".navbar" in
  y ← gets scrollY;
  if bool_decide (50 < y) then
    nb ← deref navbar;
    theme ← getAttribute (documentElement pg) "data-theme";
    style_assign nb "background"
      (if bool_decide (theme = Some "dark")
       then "rgba(17, 24, 39, 0.98)"
       else "rgba(255, 255, 255, 0.98)")
  else
    nb ← deref navbar;
    theme ← getAttribute (documentElement pg) "data-theme";
    style_assign nb "background"
      (if bool_decide (theme = Some "dark")
       then "rgba(17, 24, 39, 0.95)"
       else "rgba(255, 255, 255, 0.95)").

(** Lines 172-191: active navigation link on scroll.  [current] starts as
    [''] and takes the [id] of every section that passes the test, in
    document order ([sectionHeight] is read and not used). *)
Definition currentSection (w : World) : option string :=
  foldl (λ current section,
           let sectionTop := default 0 (offsetTop w !! section) in
           if bool_decide (sectionTop - 200 ≤ scrollY w)
           then attributes w !! (section, "id")
           else current)
        (Some "") (querySelectorAll pg "section").

(** The callback of [navLinks.forEach], for a given [current]. *)
Definition activeLink_mark (current : option string) (link : ElemId) : JS unit :=
  classList_remove link "active" ;;
  href ← getAttribute link "href";
  if bool_decide (href = Some ("#" +:+ js_string current))
  then classList_add link "active"
  else mret tt.

Definition activeLink_onScroll : JS unit :=
  let navLinks := querySelectorAll pg ".nav-links a" in
  current ← gets currentSection;
  forEach navLinks (activeLink_mark current).

(** Lines 194-210: the typing animation of the subtitle.  [text] and [i]
    are the variables captured by [typeWriter]. *)
Definition textContent_assign (e : ElemId) (s : string) : JS unit :=
  modify (λ w, set_textContent (<[e := s]> (textContent w)) w).

Definition typeWriter : JS unit :=
  match querySelector pg ".subtitle" with
  | Some subtitle =>
      i ← gets typeIndex;
      text ← gets typeText;
      if bool_decide (i < String.length text)%nat then
        shown ← gets (λ w, default "" (textContent w !! subtitle));
        textContent_assign subtitle (shown +:+ String.substring i 1 text) ;;
        modify (set_typeIndex (S i)) ;;
        setTimeout TypeWriter 100
      else mret tt
  | None => mret tt
  end.

(** Lines 213-218. *)
Definition scrollToTop : JS unit :=
  modify (λ w, set_scrollRequests (scrollRequests w ++ [ToTop]) w).

(** Lines 221-230: the optional scroll-to-top button. *)
Definition scrollTop_onScroll : JS unit :=
  match querySelector pg ".scroll-top" with
  | Some scrollTop =>
      y ← gets scrollY;
      if bool_decide (300 < y)
      then style_assign scrollTop "display" "block"
      else style_assign scrollTop "display" "none"
  | None => mret tt
  end.

(** Lines 116-119 and 233-257: the other two [DOMContentLoaded] listeners. *)
Definition observe_all : JS unit :=
  forEach (querySelectorAll pg "section, .skill-card, .project-card") observer_observe.

Definition start_animations : JS unit :=
  match querySelector pg ".hero" with
  | Some hero => classList_add hero "fade-in"
  | None => mret tt
  end ;;
  forEachFrom 0 (querySelectorAll pg ".skill-card") (λ card index,
    setTimeout (ShowCard card) (index * 100)) ;;
  forEachFrom 0 (querySelectorAll pg ".project-card") (λ card index,
    setTimeout (ShowCard card) (index * 150)).

(** The bodies of the [setTimeout] callbacks. *)
Definition run_task (task : Task) : JS unit :=
  match task with
  | ResetToggleTransform =>
      toggle ← this_themeToggle;
      style_assign toggle "transform" ""
  | TypeWriter => typeWriter
  | ShowCard card =>
      style_assign card "opacity" "1" ;;
      style_assign card "transform" "translateY(0)"
  end.

(** What the script does when it is loaded, apart from registering
    listeners: it creates the observer and prepares the subtitle. *)
Definition main : JS unit :=
  modify (set_observed []) ;;
  match querySelector pg ".subtitle" with
  | Some subtitle =>
      text ← gets (λ w, default "" (textContent w !! subtitle));
      modify (set_typeText text) ;;
      textContent_assign subtitle "" ;;
      modify (set_typeIndex 0) ;;
      setTimeout TypeWriter 1000
  | None => mret tt
  end.

(** ** Events *)

(** A listener that throws is reported and the next listener still runs. *)
Definition report (h : JS unit) (w : World) : World :=
  match h w with
  | (w', Return _) => w'
  | (w', Throw e) => set_errors (errors w' ++ [e]) w'
  end.

Definition dispatch (listeners : list (JS unit)) (w : World) : World :=
  foldl (λ w h, report h w) w listeners.

Inductive Event :=
  | Click (e : ElemId)
  | MouseEnter (e : ElemId)
  | MouseLeave (e : ElemId)
  | Input (control : nat) (value : string)   (* the user edits a form control *)
  | Submit                                   (* of [#contactForm] *)
  | Scroll (y : Z)
  | MediaChange (matches : bool)
  | Intersect (entries : list IntersectionEntry)
  | Timeout (n : nat).                       (* the n-th pending timer fires *)

(** The click listeners of element [e], in the order of their registration. *)
Definition click_listeners (w : World) (e : ElemId) : list (JS unit) :=
  (if bool_decide (e ∈ querySelectorAll pg anchorSelector)
   then [anchor_onClick e] else []) ++
  match hamburger, navLinks with
  | Some h, Some _ => if bool_decide (h = e) then [hamburger_onClick] else []
  | _, _ => []
  end ++
  (if bool_decide (e ∈ querySelectorAll pg ".nav-links a")
   then [navLink_onClick] else []) ++
  (if themeListeners w && bool_decide (themeToggle (manager w) = Some e)
   then [ThemeManager_toggleTheme] else []).

Definition step (ev : Event) (w : World) : World :=
  match ev with
  | Click e => dispatch (click_listeners w e) (set_defaultPrevented false w)
  | MouseEnter e =>
      if bool_decide (e ∈ querySelectorAll pg ".social-icon")
      then dispatch [socialIcon_onMouseEnter e] w else w
  | MouseLeave e =>
      if bool_decide (e ∈ querySelectorAll pg ".social-icon")
      then dispatch [socialIcon_onMouseLeave e] w else w
  | Input control value =>
      set_formControls
        (alter (λ c, mkFormControl (fc_name c) value (fc_default c)) control
           (formControls w)) w
  | Submit =>
      match getElementById pg "contactForm" with
      | Some _ => dispatch [contactForm_onSubmit] (set_defaultPrevented false w)
      | None => w
      end
  | Scroll y =>
      dispatch [navbar_onScroll; activeLink_onScroll; scrollTop_onScroll]
        (set_scrollY y w)
  | MediaChange matches =>
      let w' := set_prefersDark matches w in
      if themeListeners w
      then dispatch [ThemeManager_onSystemThemeChange matches] w' else w'
  | Intersect entries =>
      dispatch
        [observer_callback
           (filter (λ entry, target entry ∈ observed w) entries)] w
  | Timeout n =>
      match timers w !! n with
      | Some (_, task) => dispatch [run_task task] (set_timers (delete n (timers w)) w)
      | None => w
      end
  end.

Definition run (evs : list Event) (w : World) : World :=
  foldl (λ w ev, step ev w) w evs.

Definition domContentLoaded : World → World :=
  dispatch [ThemeManager_new; observe_all; start_animations].

(** A session of the page: the script is loaded, [DOMContentLoaded] fires
    once, and events arrive before and after it. *)
Definition session (w0 : World) (before after : list Event) : World :=
  run after (domContentLoaded (run before (report main w0))).

End Script.

(** The page before the script has run: no listener of the theme manager
    is registered and no timer is pending. *)
Definition pristine (w : World) : Prop :=
  themeListeners w = false ∧ timers w = [].

Definition dataTheme (pg : Page) (w : World) : option string :=
  attributes w !! (documentElement pg, "data-theme").

Definition storedTheme (w : World) : option string := localStorage w !! "theme".

(** ** Notions used in the statements *)

(** A computation preserves a relation between worlds when the world it
    leaves, at its return or at an exception, is related to the world it
    started from. *)
Definition preserves {A} (R : relation World) (m : JS A) : Prop :=
  ∀ w, R w (m w).1.

(** It keeps a view of the world when it leaves that view as it was. *)
Definition same {V} (view : World → V) : relation World :=
  λ w w', view w' = view w.

Definition keeps {V A} (view : World → V) (m : JS A) : Prop :=
  preserves (same view) m.

(** As long as [e] is not the icon of the theme manager, [e] keeps the
    class [fade-in] and the manager keeps its icon. *)
Definition reveal_kept (e : ElemId) : relation World :=
  λ w w', themeIcon (manager w) ≠ Some e →
    themeIcon (manager w') = themeIcon (manager w) ∧
    ("fade-in" ∈ classes w e → "fade-in" ∈ classes w' e).

(** What the theme feature owns: the stored entry, the instance, the
    attributes and the registration of its listeners. *)
Definition themeView (w : World) :=
  (localStorage w, manager w, attributes w, themeListeners w).


(** Once [ThemeManager.init] has completed, the instance holds both
    controls and the stored entry, the attribute and [currentTheme] agree. *)
Definition theme_synced (pg : Page) (w : World) : Prop :=
  themeListeners w = true →
  is_Some (themeToggle (manager w)) ∧ is_Some (themeIcon (manager w)) ∧
  currentTheme (manager w) ≠ "" ∧
  storedTheme w = Some (currentTheme (manager w)) ∧
  dataTheme pg w = Some (currentTheme (manager w)).

(** ** Sample pages

    A page with the markup the script expects: element 0 is the root,
    1 and 2 the theme toggle and its icon, 3 the contact form, 4 the
    navbar, 5 the navigation container with links 7, 8 and 9, and
    10, 11, 12 the sections [home], [about] and [contact]; 16 is an
    anchor in the footer whose target [#blog] is not on the page. *)
Definition samplePage : Page :=
  mkPage 0%nat
    (λ id, (list_to_map
       [("themeToggle", 1%nat); ("themeIcon", 2%nat); ("contactForm", 3%nat)]
       : gmap string ElemId) !! id)
    (λ sel, (list_to_map
       [(".navbar", 4%nat); (".nav-links", 5%nat); (".hamburger", 6%nat);
        (".hero", 10%nat); ("#home", 10%nat); ("#about", 11%nat);
        ("#contact", 12%nat)] : gmap string ElemId) !! sel)
    (λ sel, default [] ((list_to_map
       [(anchorSelector, [7%nat; 8%nat; 9%nat; 16%nat]);
        (".nav-links a", [7%nat; 8%nat; 9%nat]);
        ("section", [10%nat; 11%nat; 12%nat]);
        ("section, .skill-card, .project-card",
         [10%nat; 11%nat; 12%nat; 13%nat; 14%nat]);
        (".skill-card", [13%nat]); (".project-card", [14%nat]);
        (".social-icon", [15%nat])] : gmap string (list ElemId)) !! sel))
    (λ sel, bool_decide (sel ≠ "#")).

(** The same page without the icon element. *)
Definition pageWithoutIcon : Page :=
  mkPage (documentElement samplePage)
    (λ id, if bool_decide (id = "themeIcon") then None else getElementById samplePage id)
    (querySelector samplePage) (querySelectorAll samplePage) (selectorValid samplePage).

(** A first visit, on a system that prefers dark: local storage is empty.
    The sections start at 0, 600 and 1200 pixels; the form is filled in
    except for the email. *)
Definition firstVisit : World :=
  mkWorld ∅
    (list_to_map
       [((7%nat, "href"), "#home"); ((8%nat, "href"), "#about");
        ((9%nat, "href"), "#contact"); ((16%nat, "href"), "#blog");
        ((10%nat, "id"), "home");
        ((11%nat, "id"), "about"); ((12%nat, "id"), "contact")])
    ∅ ∅
    (list_to_map [(10%nat, 0); (11%nat, 600); (12%nat, 1200)])
    [mkFormControl "name" "Ada" ""; mkFormControl "email" "" "";
     mkFormControl "message" "Hello" ""]
    0 true ∅ (mkThemeManager None None "") false [] "" 0%nat [] [] [] false [].

(** The same visit on a page whose first section starts 300 pixels down. *)
Definition belowHeader : World :=
  mkWorld (classList firstVisit) (attributes firstVisit) (style firstVisit)
    (textContent firstVisit)
    (list_to_map [(10%nat, 300); (11%nat, 900); (12%nat, 1500)])
    (formControls firstVisit) 0 true ∅ (manager firstVisit) false [] "" 0%nat
    [] [] [] false [].

(** The first visit once the script has run and [DOMContentLoaded] has
    fired, and the same after one click on the theme toggle. *)
Definition loadedVisit : World := session samplePage firstVisit [] [].

Definition toggledVisit : World := (ThemeManager_toggleTheme samplePage loadedVisit).1.

(** ** The words of the specification *)

(** A section qualifies at the current offset when its top minus 200px is
    at most the offset; the active section is the last one in document
    order that qualifies. *)
Definition qualifies (w : World) (section : ElemId) : Prop :=
  default 0 (offsetTop w !! section) - 200 ≤ scrollY w.

Global Instance qualifies_dec (w : World) (section : ElemId) :
  Decision (qualifies w section) :=
  decide (default 0 (offsetTop w !! section) - 200 ≤ scrollY w).

Definition lastQualifying (pg : Page) (w : World) : option ElemId :=
  last (filter (qualifies w) (querySelectorAll pg "section")).

(** The [href] that targets the active section: [#] and its [id], and
    [#] alone when no section qualifies. *)
Definition activeTarget (pg : Page) (w : World) : string :=
  "#" +:+ match lastQualifying pg w with
          | Some section => js_string (attributes w !! (section, "id"))
          | None => ""
          end.

Definition isActive (w : World) (link : ElemId) : Prop := "active" ∈ classes w link.

Definition targets (w : World) (href : string) (link : ElemId) : Prop :=
  attributes w !! (link, "href") = Some href.

Global Instance isActive_dec (w : World) (link : ElemId) : Decision (isActive w link) :=
  decide ("active" ∈ classes w link).

Global Instance targets_dec (w : World) (href : string) (link : ElemId) :
  Decision (targets w href link) :=
  decide (attributes w !! (link, "href") = Some href).

(** The navbar background as a table of the two inputs. *)
Definition navbarBackground (scrolled dark : bool) : string :=
  match scrolled, dark with
  | true, true => "rgba(17, 24, 39, 0.98)"
  | true, false => "rgba(255, 255, 255, 0.98)"
  | false, true => "rgba(17, 24, 39, 0.95)"
  | false, false => "rgba(255, 255, 255, 0.95)"
  end.

(** A form field is empty when it holds the empty string or is missing. *)
Definition empty_field (w : World) (name : string) : Prop :=
  FormData_get (formControls w) name = Some "" ∨
  FormData_get (formControls w) name = None.

(** A sequence of intersection callbacks. *)
Definition observer_run (callbacks : list (list IntersectionEntry)) (w : World) : World :=
  foldl (λ w entries, (observer_callback entries w).1) w callbacks.

(** ** Notions used in the further properties *)

From Stdlib Require Import Sorted.

(** A relation that the bookkeeping of an event respects. *)
Definition event_frame (R : relation World) : Prop :=
  (∀ v w, R w (set_errors v w)) ∧
  (∀ v w, R w (set_defaultPrevented v w)) ∧
  (∀ v w, R w (set_formControls v w)) ∧
  (∀ v w, R w (set_scrollY v w)) ∧
  (∀ v w, R w (set_prefersDark v w)) ∧
  (∀ v w, R w (set_timers v w)).

(** Every listener and timer callback of the script preserves [R]. *)
Definition listeners_preserve (pg : Page) (R : relation World) : Prop :=
  (∀ this, preserves R (anchor_onClick pg this)) ∧
  preserves R (hamburger_onClick pg) ∧
  preserves R (navLink_onClick pg) ∧
  preserves R (ThemeManager_toggleTheme pg) ∧
  (∀ this, preserves R (socialIcon_onMouseEnter this)) ∧
  (∀ this, preserves R (socialIcon_onMouseLeave this)) ∧
  preserves R contactForm_onSubmit ∧
  preserves R (navbar_onScroll pg) ∧
  preserves R (activeLink_onScroll pg) ∧
  preserves R (scrollTop_onScroll pg) ∧
  (∀ matches, preserves R (ThemeManager_onSystemThemeChange pg matches)) ∧
  (∀ entries, preserves R (observer_callback entries)) ∧
  (∀ task, preserves R (run_task pg task)).

(** Local storage outside the key [theme]. *)
Definition storage_elsewhere : relation World :=
  λ w w', ∀ key, key ≠ "theme" → localStorage w' !! key = localStorage w !! key.

(** [currentTheme] is one of the two themes. *)
Definition valid_theme (w : World) : Prop :=
  currentTheme (manager w) = "light" ∨ currentTheme (manager w) = "dark".

(** The subtitle shows the first [typeIndex] characters of the text. *)
Definition typed_prefix (pg : Page) (w : World) : Prop :=
  match querySelector pg ".subtitle" with
  | Some subtitle =>
      default "" (textContent w !! subtitle)
      = String.substring 0 (typeIndex w) (typeText w) ∧
      (typeIndex w ≤ String.length (typeText w))%nat
  | None => True
  end.

(** [n] runs of the [typeWriter] callback. *)
Definition typing (pg : Page) (n : nat) (w : World) : World :=
  Nat.iter n (λ w, (typeWriter pg w).1) w.

Definition valid_kept : relation World :=
  λ w w', valid_theme w → valid_theme w'.

(** A later visit of the sample page: the visitor chose dark before, and
    another script of the site keeps a [lang] entry. *)
Definition returningVisit : World :=
  set_localStorage (list_to_map [("theme", "dark"); ("lang", "en")]) firstVisit.

(** A visit with an entry that is no theme. *)
Definition strangeVisit : World :=
  set_localStorage (list_to_map [("theme", "blue")]) firstVisit.

(** A visit in which the footer anchor (element 16) is a placeholder
    link: its [href] is [#] alone. *)
Definition placeholderVisit : World :=
  set_attributes (<[(16%nat, "href") := "#"]> (attributes firstVisit)) firstVisit.

(** What the typing animation owns. *)
Definition typingView (w : World) := (textContent w, typeText w, typeIndex w).

Definition typed_kept (pg : Page) : relation World :=
  λ w w', typed_prefix pg w → typed_prefix pg w'.


(** The sample page with a subtitle (element 17) and a scroll-to-top
    button (element 18), and a visit of it. *)
Definition portfolioPage : Page :=
  mkPage (documentElement samplePage) (getElementById samplePage)
    (λ sel, if bool_decide (sel = ".subtitle") then Some 17%nat
            else if bool_decide (sel = ".scroll-top") then Some 18%nat
            else querySelector samplePage sel)
    (querySelectorAll samplePage) (selectorValid samplePage).

Definition portfolioVisit : World :=
  set_textContent {[17%nat := "Cloud Engineer"]} firstVisit.

(** The same page without its navbar. *)
Definition pageWithoutNavbar : Page :=
  mkPage (documentElement portfolioPage) (getElementById portfolioPage)
    (λ sel, if bool_decide (sel = ".navbar") then None
            else querySelector portfolioPage sel)
    (querySelectorAll portfolioPage) (selectorValid portfolioPage).

(** The first visit once the visitor has typed an email address. *)
Definition filledVisit : World :=
  step samplePage (Input 1 "ada@example.org") firstVisit.
(** * Properties *)

(** ** Reasoning on handlers *)

Create HintDb handlers discriminated.
Create HintDb dom discriminated.
Create HintDb classops discriminated.

#[global] Hint Unfold
  anchor_onClick hamburger_onClick navLink_onClick observer_callback
  contactForm_onSubmit socialIcon_onMouseEnter socialIcon_onMouseLeave
  navbar_onScroll activeLink_onScroll activeLink_mark typeWriter
  scrollTop_onScroll observe_all start_animations run_task main
  this_themeToggle this_themeIcon document_querySelector : handlers.

#[global] Hint Unfold
  observer_observe form_reset textContent_assign scrollToTop getAttribute
  setAttribute style_assign localStorage_getItem localStorage_setItem setTimeout
  alert preventDefault scrollIntoView deref : dom.

#[global] Hint Unfold
  classList_add classList_remove classList_toggle className_assign : classops.

Global Instance same_preorder {V} (view : World → V) : PreOrder (same view).
Proof.
  split.
  - intros w. reflexivity.
  - intros w1 w2 w3 H12 H23. unfold same in *. congruence.
Qed.

Global Instance reveal_kept_preorder (e : ElemId) : PreOrder (reveal_kept e).
Proof.
  split.
  - intros w _. auto.
  - intros w1 w2 w3 H12 H23 H1. destruct (H12 H1) as [Hi Hc].
    destruct H23 as [Hi' Hc']; [congruence|]. split; [congruence | auto].
Qed.

Section Preserves.
Context (R : relation World) `{!PreOrder R}.

Lemma preserves_ret {A} (a : A) : preserves R (mret a).
Proof. intros w. simpl. reflexivity. Qed.

Lemma preserves_throw {A} (e : JsError) : preserves R (throw (A:=A) e).
Proof. intros w. simpl. reflexivity. Qed.

Lemma preserves_gets {A} (f : World → A) : preserves R (gets f).
Proof. intros w. simpl. reflexivity. Qed.

Lemma preserves_modify (f : World → World) :
  (∀ w, R w (f w)) → preserves R (modify f).
Proof. intros Hf w. apply Hf. Qed.

Lemma preserves_bind {A B} (m : JS A) (k : A → JS B) :
  preserves R m → (∀ a, preserves R (k a)) → preserves R (m ≫= k).
Proof.
  intros Hm Hk w. unfold mbind, JS_bind.
  specialize (Hm w). destruct (m w) as [w1 [a|e]]; simpl in *.
  - transitivity w1; [exact Hm | apply Hk].
  - exact Hm.
Qed.

Lemma preserves_forEach {A} (l : list A) (f : A → JS unit) :
  (∀ x, preserves R (f x)) → preserves R (forEach l f).
Proof.
  intros Hf. induction l as [|x l IH]; simpl.
  - apply preserves_ret.
  - apply preserves_bind; [apply Hf | intros _; exact IH].
Qed.

Lemma preserves_forEachFrom {A} (l : list A) (f : A → nat → JS unit) i :
  (∀ x n, preserves R (f x n)) → preserves R (forEachFrom i l f).
Proof.
  intros Hf. revert i. induction l as [|x l IH]; intros i; simpl.
  - apply preserves_ret.
  - apply preserves_bind; [apply Hf | intros _; apply IH].
Qed.

Lemma preserves_report (h : JS unit) w :
  preserves R h → (∀ v w, R w (set_errors v w)) → R w (report h w).
Proof.
  intros Hh He. unfold report. specialize (Hh w).
  destruct (h w) as [w1 [a|e]]; simpl in *; [exact Hh|].
  transitivity w1; [exact Hh | apply He].
Qed.

Lemma preserves_dispatch (hs : list (JS unit)) w :
  Forall (preserves R) hs → (∀ v w, R w (set_errors v w)) → R w (dispatch hs w).
Proof.
  intros Hhs He. revert w. induction Hhs as [|h hs Hh _ IH]; intros w; simpl.
  - reflexivity.
  - fold (dispatch hs (report h w)).
    transitivity (report h w); [by apply preserves_report | apply IH].
Qed.

End Preserves.

Lemma keeps_report {V} (view : World → V) (h : JS unit) w :
  keeps view h → (∀ v w, view (set_errors v w) = view w) →
  view (report h w) = view w.
Proof. intros Hh He. by apply (preserves_report (same view)). Qed.

Lemma keeps_dispatch {V} (view : World → V) (hs : list (JS unit)) w :
  Forall (keeps view) hs → (∀ v w, view (set_errors v w) = view w) →
  view (dispatch hs w) = view w.
Proof. intros Hhs He. by apply (preserves_dispatch (same view)). Qed.

(** The structure of a handler, down to its primitive steps; [leaf]
    proves the steps. *)
Ltac preserves_step leaf :=
  lazymatch goal with
  | |- PreOrder _ => apply _
  | |- preserves _ (mbind _ _) => apply preserves_bind; [..|intros ?]
  | |- preserves _ (mret _) => apply preserves_ret
  | |- preserves _ (throw _) => apply preserves_throw
  | |- preserves _ (gets _) => apply preserves_gets
  | |- preserves _ (forEach _ _) => apply preserves_forEach; [..|intros ?]
  | |- preserves _ (forEachFrom _ _ _) =>
      apply preserves_forEachFrom; [..|intros ? ?]
  | |- preserves _ (if ?b then _ else _) => destruct b
  | |- preserves _ (match ?o with _ => _ end) => destruct o
  | |- preserves _ _ => leaf
  end.

Ltac keeps_leaf :=
  idtac;
  lazymatch goal with
  | |- preserves _ (modify _) =>
      apply preserves_modify; intros ?; unfold same;
      repeat case_bool_decide; reflexivity
  end.

Ltac solve_keeps :=
  unfold keeps; autounfold with handlers dom classops;
  repeat preserves_step keeps_leaf.

(** One goal for each listener of a list. *)
Ltac each_listener :=
  repeat lazymatch goal with
  | |- Forall _ [] => constructor
  | |- Forall _ (_ :: _) => constructor
  | |- Forall _ (_ ++ _) => apply Forall_app; split
  | |- Forall _ (if ?b then _ else _) => destruct b
  | |- Forall _ (match ?o with _ => _ end) => destruct o
  end.

(** ** The theme state *)

Section ThemeFrame.
Context (pg : Page).

Lemma anchor_onClick_theme this : keeps themeView (anchor_onClick pg this).
Proof. solve_keeps. Qed.

Lemma hamburger_onClick_theme : keeps themeView (hamburger_onClick pg).
Proof. solve_keeps. Qed.

Lemma navLink_onClick_theme : keeps themeView (navLink_onClick pg).
Proof. solve_keeps. Qed.

Lemma observer_callback_theme entries : keeps themeView (observer_callback entries).
Proof. solve_keeps. Qed.

Lemma contactForm_onSubmit_theme : keeps themeView contactForm_onSubmit.
Proof. solve_keeps. Qed.

Lemma navbar_onScroll_theme : keeps themeView (navbar_onScroll pg).
Proof. solve_keeps. Qed.

Lemma activeLink_onScroll_theme : keeps themeView (activeLink_onScroll pg).
Proof. solve_keeps. Qed.

Lemma scrollTop_onScroll_theme : keeps themeView (scrollTop_onScroll pg).
Proof. solve_keeps. Qed.

Lemma run_task_theme task : keeps themeView (run_task pg task).
Proof. destruct task; solve_keeps. Qed.

Lemma main_theme : keeps themeView (main pg).
Proof. solve_keeps. Qed.

Lemma observe_all_theme : keeps themeView (observe_all pg).
Proof. solve_keeps. Qed.

Lemma start_animations_theme : keeps themeView (start_animations pg).
Proof. solve_keeps. Qed.

End ThemeFrame.

(** ** [ThemeManager] *)

Ltac js_run :=
  autounfold with handlers dom classops;
  unfold mbind, JS_bind, mret, JS_ret, throw, gets, modify; simpl.

Section Theme.
Context (pg : Page).

(** With both controls present [setTheme] returns, and it has set the
    field, the attribute and the stored entry to its argument. *)
Lemma setTheme_present theme w t i :
  themeToggle (manager w) = Some t → themeIcon (manager w) = Some i →
  ∃ w', ThemeManager_setTheme pg theme w = (w', Return tt) ∧
    manager w' = mkThemeManager (Some t) (Some i) theme ∧
    dataTheme pg w' = Some theme ∧
    storedTheme w' = Some theme ∧
    themeListeners w' = themeListeners w ∧
    prefersDark w' = prefersDark w ∧
    timers w' = timers w ∧
    style w' = style w.
Proof.
  intros Ht Hi. unfold ThemeManager_setTheme. js_run. rewrite Ht, Hi. simpl.
  unfold dataTheme, storedTheme.
  destruct (bool_decide (theme = "dark")); simpl;
    (eexists; split; [reflexivity|]; simpl;
     rewrite ?lookup_insert_eq; rewrite lookup_insert_ne by congruence;
     rewrite ?lookup_insert_eq; auto 10).
Qed.

(** Without the icon, or without the toggle, it throws before it reaches
    the write to local storage. *)
Lemma setTheme_absent theme w :
  themeToggle (manager w) = None ∨ themeIcon (manager w) = None →
  ∃ w', ThemeManager_setTheme pg theme w = (w', Throw TypeError) ∧
    localStorage w' = localStorage w ∧
    themeListeners w' = themeListeners w ∧
    dataTheme pg w' = Some theme.
Proof.
  intros H. unfold ThemeManager_setTheme. js_run. unfold dataTheme.
  destruct (themeIcon (manager w)) as [i|], (themeToggle (manager w)) as [t|];
    try (destruct H; discriminate);
    destruct (bool_decide (theme = "dark")); simpl;
    (eexists; split; [reflexivity|]; simpl; rewrite lookup_insert_eq; auto).
Qed.

Lemma toggleTheme_present w t i :
  themeToggle (manager w) = Some t → themeIcon (manager w) = Some i →
  let newTheme :=
    if bool_decide (currentTheme (manager w) = "light") then "dark" else "light" in
  ∃ w', ThemeManager_toggleTheme pg w = (w', Return tt) ∧
    manager w' = mkThemeManager (Some t) (Some i) newTheme ∧
    dataTheme pg w' = Some newTheme ∧
    storedTheme w' = Some newTheme ∧
    themeListeners w' = themeListeners w ∧
    prefersDark w' = prefersDark w ∧
    timers w' = timers w ++ [(300%nat, ResetToggleTransform)] ∧
    style w' = <[(t, "transform") := "rotate(360deg)"]> (style w).
Proof.
  intros Ht Hi newTheme. unfold ThemeManager_toggleTheme. js_run.
  destruct (setTheme_present newTheme w t i Ht Hi)
    as (w1 & E & Hm & Hd & Hs & Hl & Hp & Htm & Hst).
  fold newTheme. rewrite E. simpl. rewrite Hm. simpl.
  eexists; split; [reflexivity|]. simpl. rewrite Htm, Hst. auto 10.
Qed.

(** The media-query listener is guarded by the stored entry. *)
Lemma onSystemThemeChange_stored matches w :
  truthy (storedTheme w) = true →
  ThemeManager_onSystemThemeChange pg matches w = (w, Return tt).
Proof.
  intros H. unfold ThemeManager_onSystemThemeChange. js_run.
  unfold storedTheme in H. rewrite H. reflexivity.
Qed.

Lemma onSystemThemeChange_unstored matches w :
  truthy (storedTheme w) = false →
  ThemeManager_onSystemThemeChange pg matches w =
  ThemeManager_setTheme pg (if matches then "dark" else "light") w.
Proof.
  intros H. unfold ThemeManager_onSystemThemeChange. js_run.
  unfold storedTheme in H. rewrite H. reflexivity.
Qed.

(** Construction: the initial theme is the stored entry, or ['light']. *)
Lemma ThemeManager_new_present w t i :
  getElementById pg "themeToggle" = Some t → getElementById pg "themeIcon" = Some i →
  let theme := or_else (storedTheme w) "light" in
  ∃ w', ThemeManager_new pg w = (w', Return tt) ∧
    manager w' = mkThemeManager (Some t) (Some i) theme ∧
    dataTheme pg w' = Some theme ∧
    storedTheme w' = Some theme ∧
    themeListeners w' = true ∧
    prefersDark w' = prefersDark w.
Proof.
  intros Ht Hi theme. unfold ThemeManager_new, ThemeManager_init. js_run.
  rewrite Ht, Hi. fold (storedTheme w). fold theme.
  set (w0 := set_manager _ w).
  destruct (setTheme_present theme w0 t i eq_refl eq_refl)
    as (w1 & E & Hm & Hd & Hs & Hl & Hp & _).
  rewrite E. simpl. rewrite Hm. simpl.
  eexists; split; [reflexivity|]. simpl. auto 10.
Qed.

Lemma ThemeManager_new_absent w :
  getElementById pg "themeToggle" = None ∨ getElementById pg "themeIcon" = None →
  ∃ w', ThemeManager_new pg w = (w', Throw TypeError) ∧
    localStorage w' = localStorage w ∧
    themeListeners w' = themeListeners w ∧
    dataTheme pg w' = Some (or_else (storedTheme w) "light").
Proof.
  intros H. unfold ThemeManager_new, ThemeManager_init. js_run.
  fold (storedTheme w). set (theme := or_else _ _). set (w0 := set_manager _ w).
  destruct (setTheme_absent theme w0 H) as (w1 & E & Hs & Hl & Hd).
  rewrite E. simpl. eauto.
Qed.

Lemma or_else_nonempty o d : d ≠ "" → or_else o d ≠ "".
Proof. intros Hd. destruct o as [s|]; simpl; [case_bool_decide|]; done. Qed.

(** *** The invariant *)

Lemma synced_view w w' :
  themeView w' = themeView w → theme_synced pg w → theme_synced pg w'.
Proof.
  unfold themeView, theme_synced, storedTheme, dataTheme.
  intros [= -> -> -> ->]. auto.
Qed.

Lemma synced_keeps (h : JS unit) w :
  keeps themeView h → theme_synced pg w → theme_synced pg (h w).1.
Proof. intros Hh. apply synced_view, Hh. Qed.

Lemma setTheme_synced theme w :
  theme ≠ "" → theme_synced pg w → theme_synced pg (ThemeManager_setTheme pg theme w).1.
Proof.
  intros Hne Hw.
  destruct (themeToggle (manager w)) as [t|] eqn:Ht;
    [destruct (themeIcon (manager w)) as [i|] eqn:Hi|].
  - destruct (setTheme_present theme w t i Ht Hi) as (w' & E & Hm & Hd & Hs & _).
    rewrite E. simpl. intros _. rewrite Hm. simpl. eauto 10.
  - destruct (setTheme_absent theme w (or_intror Hi)) as (w' & E & _ & Hl & _).
    rewrite E. simpl. intros HL. rewrite Hl in HL.
    destruct (Hw HL) as (_ & [i' Hi'] & _). congruence.
  - destruct (setTheme_absent theme w (or_introl Ht)) as (w' & E & _ & Hl & _).
    rewrite E. simpl. intros HL. rewrite Hl in HL.
    destruct (Hw HL) as ([t' Ht'] & _). congruence.
Qed.

Lemma toggleTheme_themeListeners w :
  themeListeners (ThemeManager_toggleTheme pg w).1 = themeListeners w.
Proof.
  unfold ThemeManager_toggleTheme. js_run.
  set (newTheme := if bool_decide _ then _ else _).
  destruct (themeToggle (manager w)) as [t|] eqn:Ht;
    [destruct (themeIcon (manager w)) as [i|] eqn:Hi|].
  - destruct (setTheme_present newTheme w t i Ht Hi) as (w' & E & Hm & _ & _ & Hl & _).
    rewrite E. simpl. rewrite Hm. simpl. exact Hl.
  - destruct (setTheme_absent newTheme w (or_intror Hi)) as (w' & E & _ & Hl & _).
    rewrite E. simpl. exact Hl.
  - destruct (setTheme_absent newTheme w (or_introl Ht)) as (w' & E & _ & Hl & _).
    rewrite E. simpl. exact Hl.
Qed.

Lemma toggleTheme_synced w :
  theme_synced pg w → theme_synced pg (ThemeManager_toggleTheme pg w).1.
Proof.
  intros Hw HL. rewrite toggleTheme_themeListeners in HL.
  destruct (Hw HL) as ([t Ht] & [i Hi] & _).
  destruct (toggleTheme_present w t i Ht Hi) as (w' & E & Hm & Hd & Hs & _).
  rewrite E. simpl. rewrite Hm. simpl.
  repeat split; eauto; try (by case_bool_decide).
Qed.

Lemma onSystemThemeChange_synced matches w :
  theme_synced pg w →
  theme_synced pg (ThemeManager_onSystemThemeChange pg matches w).1.
Proof.
  intros Hw. destruct (truthy (storedTheme w)) eqn:Hs.
  - rewrite onSystemThemeChange_stored by done. exact Hw.
  - rewrite onSystemThemeChange_unstored by done.
    apply setTheme_synced; [by destruct matches | exact Hw].
Qed.

Lemma ThemeManager_new_synced w :
  themeListeners w = false → theme_synced pg (ThemeManager_new pg w).1.
Proof.
  intros HL.
  destruct (getElementById pg "themeToggle") as [t|] eqn:Ht;
    [destruct (getElementById pg "themeIcon") as [i|] eqn:Hi|].
  - destruct (ThemeManager_new_present w t i Ht Hi) as (w' & E & Hm & Hd & Hs & _).
    rewrite E. simpl. intros _. rewrite Hm. simpl.
    repeat split; eauto. by apply or_else_nonempty.
  - destruct (ThemeManager_new_absent w (or_intror Hi)) as (w' & E & _ & Hl & _).
    rewrite E. simpl. intros HL'. congruence.
  - destruct (ThemeManager_new_absent w (or_introl Ht)) as (w' & E & _ & Hl & _).
    rewrite E. simpl. intros HL'. congruence.
Qed.

Lemma synced_set_errors v w : theme_synced pg w → theme_synced pg (set_errors v w).
Proof. by apply synced_view. Qed.

Lemma synced_report (h : JS unit) w :
  (∀ w, theme_synced pg w → theme_synced pg (h w).1) →
  theme_synced pg w → theme_synced pg (report h w).
Proof.
  intros Hh Hw. unfold report. specialize (Hh w Hw).
  destruct (h w) as [w' [a|e]]; simpl in *; [|apply synced_set_errors]; exact Hh.
Qed.

Lemma synced_dispatch (hs : list (JS unit)) w :
  Forall (λ h, ∀ w, theme_synced pg w → theme_synced pg (h w).1) hs →
  theme_synced pg w → theme_synced pg (dispatch hs w).
Proof.
  intros Hhs. revert w. induction Hhs as [|h hs Hh _ IH]; intros w Hw; simpl.
  - exact Hw.
  - apply IH. by apply synced_report.
Qed.

Lemma click_listeners_synced w e :
  Forall (λ h, ∀ w, theme_synced pg w → theme_synced pg (h w).1) (click_listeners pg w e).
Proof.
  unfold click_listeners. each_listener; intros w'.
  - apply synced_keeps, anchor_onClick_theme.
  - apply synced_keeps, hamburger_onClick_theme.
  - apply synced_keeps, navLink_onClick_theme.
  - apply toggleTheme_synced.
Qed.

(** Every event keeps the invariant. *)
Lemma step_synced ev w : theme_synced pg w → theme_synced pg (step pg ev w).
Proof.
  intros Hw. destruct ev; cbn [step].
  - apply synced_dispatch; [apply click_listeners_synced | by eapply synced_view].
  - case_bool_decide; [|done]. apply synced_dispatch; [|done].
    each_listener. intros w'. apply synced_keeps. solve_keeps.
  - case_bool_decide; [|done]. apply synced_dispatch; [|done].
    each_listener. intros w'. apply synced_keeps. solve_keeps.
  - by eapply synced_view.
  - destruct (getElementById pg "contactForm"); [|done].
    apply synced_dispatch; [|by eapply synced_view].
    each_listener. intros w'. apply synced_keeps, contactForm_onSubmit_theme.
  - apply synced_dispatch; [|by eapply synced_view].
    each_listener; intros w'; apply synced_keeps.
    + apply navbar_onScroll_theme.
    + apply activeLink_onScroll_theme.
    + apply scrollTop_onScroll_theme.
  - destruct (themeListeners w) eqn:HL; [|by eapply synced_view].
    apply synced_dispatch; [|by eapply synced_view].
    each_listener. apply onSystemThemeChange_synced.
  - apply synced_dispatch; [|done].
    each_listener. intros w'. apply synced_keeps, observer_callback_theme.
  - destruct (timers w !! n) as [[d task]|]; [|done].
    apply synced_dispatch; [|by eapply synced_view].
    each_listener. intros w'. apply synced_keeps, run_task_theme.
Qed.

Lemma run_synced evs w : theme_synced pg w → theme_synced pg (run pg evs w).
Proof.
  revert w. induction evs as [|ev evs IH]; intros w Hw; simpl; [done|].
  apply IH, step_synced, Hw.
Qed.

(** Before [DOMContentLoaded] no listener of the theme manager exists. *)
Lemma step_unlistened ev w :
  themeListeners w = false → themeListeners (step pg ev w) = false.
Proof.
  intros HL.
  assert (Hv : ∀ hs w', Forall (keeps themeView) hs → themeListeners w' = false →
                themeListeners (dispatch hs w') = false).
  { intros hs w' Hhs Hw'.
    pose proof (keeps_dispatch themeView hs w' Hhs (λ _ _, eq_refl)) as E.
    unfold themeView in E. congruence. }
  destruct ev; cbn [step].
  - apply Hv; [|done]. unfold click_listeners. rewrite HL. cbn [andb].
    each_listener.
    + apply anchor_onClick_theme.
    + apply hamburger_onClick_theme.
    + apply navLink_onClick_theme.
  - case_bool_decide; [|done]. apply Hv; [|done]. each_listener. solve_keeps.
  - case_bool_decide; [|done]. apply Hv; [|done]. each_listener. solve_keeps.
  - done.
  - destruct (getElementById pg "contactForm"); [|done].
    apply Hv; [|done]. each_listener. apply contactForm_onSubmit_theme.
  - apply Hv; [|done]. each_listener.
    + apply navbar_onScroll_theme.
    + apply activeLink_onScroll_theme.
    + apply scrollTop_onScroll_theme.
  - rewrite HL. done.
  - apply Hv; [|done]. each_listener. apply observer_callback_theme.
  - destruct (timers w !! n) as [[d task]|]; [|done].
    apply Hv; [|done]. each_listener. apply run_task_theme.
Qed.

Lemma run_unlistened evs w :
  themeListeners w = false → themeListeners (run pg evs w) = false.
Proof.
  revert w. induction evs as [|ev evs IH]; intros w Hw; simpl; [done|].
  apply IH, step_unlistened, Hw.
Qed.

Lemma domContentLoaded_synced w :
  themeListeners w = false → theme_synced pg (domContentLoaded pg w).
Proof.
  intros HL. unfold domContentLoaded. simpl.
  apply synced_report; [intros w'; apply synced_keeps, start_animations_theme|].
  apply synced_report; [intros w'; apply synced_keeps, observe_all_theme|].
  unfold report.
  pose proof (ThemeManager_new_synced w HL) as H.
  destruct (ThemeManager_new pg w) as [w' [a|e]]; simpl in *;
    [|apply synced_set_errors]; exact H.
Qed.

(** In every session, at every moment after [DOMContentLoaded]. *)
Lemma session_synced w0 before after :
  pristine w0 → theme_synced pg (session pg w0 before after).
Proof.
  intros [HL _]. unfold session.
  apply run_synced, domContentLoaded_synced, run_unlistened.
  pose proof (keeps_report themeView (main pg) w0 (main_theme pg) (λ _ _, eq_refl)) as E.
  unfold themeView in E. congruence.
Qed.

End Theme.

(** ** Initialization *)

(** C1, as amended.  When local storage has no [theme] entry and the
    toggle and its icon exist, construction sets [currentTheme] and
    [data-theme] to ['light'], whatever the system colour-scheme
    preference is: the constructor resolves the theme from the stored
    entry and the literal ['light'] of line 45, and the preference is
    neither read nor changed. *)
Theorem init_defaults_to_light (pg : Page) (w : World) (t i : ElemId) :
  getElementById pg "themeToggle" = Some t →
  getElementById pg "themeIcon" = Some i →
  storedTheme w = None →
  ∃ w', ThemeManager_new pg w = (w', Return tt) ∧
    currentTheme (manager w') = "light" ∧
    dataTheme pg w' = Some "light" ∧
    prefersDark w' = prefersDark w.
Proof.
  intros Ht Hi Hs.
  destruct (ThemeManager_new_present pg w t i Ht Hi) as (w' & E & Hm & Hd & _ & _ & Hp).
  rewrite Hs in Hm, Hd. simpl in *.
  exists w'. rewrite Hm. auto.
Qed.

Lemma init_defaults_to_light_witness :
  ∃ w', ThemeManager_new samplePage firstVisit = (w', Return tt) ∧
    currentTheme (manager w') = "light" ∧
    dataTheme samplePage w' = Some "light" ∧
    prefersDark w' = prefersDark firstVisit.
Proof.
  apply (init_defaults_to_light samplePage firstVisit 1%nat 2%nat); reflexivity.
Defined.

(** C1 as stated fails: with an empty local storage and a system that
    prefers dark, construction sets [data-theme] to ['light'] and writes
    the [theme] entry. *)
Lemma init_ignores_system_preference :
  storedTheme firstVisit = None ∧ prefersDark firstVisit = true ∧
  ∃ w', ThemeManager_new samplePage firstVisit = (w', Return tt) ∧
    dataTheme samplePage w' = Some "light" ∧
    dataTheme samplePage w' ≠ Some "dark" ∧
    storedTheme w' = Some "light" ∧
    storedTheme w' ≠ None.
Proof.
  split; [reflexivity|]. split; [reflexivity|].
  eexists. split; [vm_compute; reflexivity|].
  repeat split; try (vm_compute; reflexivity); vm_compute; discriminate.
Qed.

(** C3 fails on the code.  On a page without the icon element the
    constructor throws a [TypeError] from [setTheme], after it has set
    [data-theme]; the error is reported, no listener of the theme manager
    is registered, and the other [DOMContentLoaded] listeners still run. *)
Theorem init_without_icon_throws :
  getElementById pageWithoutIcon "themeToggle" = Some 1%nat ∧
  getElementById pageWithoutIcon "themeIcon" = None ∧
  (ThemeManager_new pageWithoutIcon firstVisit).2 = Throw TypeError ∧
  let w := domContentLoaded pageWithoutIcon firstVisit in
  errors w = [TypeError] ∧ themeListeners w = false ∧
  dataTheme pageWithoutIcon w = Some "light" ∧ storedTheme w = None ∧
  observed w = [10%nat; 11%nat; 12%nat; 13%nat; 14%nat].
Proof. repeat split; vm_compute; reflexivity. Qed.

(** ** Toggling and system notifications *)

Section Toggle.
Context (pg : Page).

Lemma toggleTheme_absent w :
  themeToggle (manager w) = None ∨ themeIcon (manager w) = None →
  ∃ w', ThemeManager_toggleTheme pg w = (w', Throw TypeError).
Proof.
  intros H. unfold ThemeManager_toggleTheme. js_run.
  set (newTheme := if bool_decide _ then _ else _).
  destruct (setTheme_absent pg newTheme w H) as (w' & E & _).
  rewrite E. eauto.
Qed.

Lemma toggleTheme_returns w w1 :
  ThemeManager_toggleTheme pg w = (w1, Return tt) →
  ∃ t i, themeToggle (manager w) = Some t ∧ themeIcon (manager w) = Some i.
Proof.
  intros E.
  destruct (themeToggle (manager w)) as [t|] eqn:Ht;
    [destruct (themeIcon (manager w)) as [i|] eqn:Hi|]; eauto.
  - destruct (toggleTheme_absent w (or_intror Hi)) as (w' & E'). congruence.
  - destruct (toggleTheme_absent w (or_introl Ht)) as (w' & E'). congruence.
Qed.

(** While an entry is stored, no event other than a click on the toggle
    touches the theme state. *)
Lemma step_theme_fixed ev w :
  truthy (storedTheme w) = true →
  (∀ e, ev = Click e → themeToggle (manager w) ≠ Some e) →
  themeView (step pg ev w) = themeView w.
Proof.
  intros Hs Hev.
  assert (Hv : ∀ hs w', Forall (keeps themeView) hs → themeView w' = themeView w →
                themeView (dispatch hs w') = themeView w).
  { intros hs w' Hhs <-. by apply keeps_dispatch. }
  destruct ev; cbn [step].
  - apply Hv; [|done]. unfold click_listeners.
    rewrite (bool_decide_eq_false_2 (themeToggle (manager w) = Some e)) by eauto.
    rewrite andb_false_r. each_listener.
    + apply anchor_onClick_theme.
    + apply hamburger_onClick_theme.
    + apply navLink_onClick_theme.
  - case_bool_decide; [|done]. apply Hv; [|done]. each_listener. solve_keeps.
  - case_bool_decide; [|done]. apply Hv; [|done]. each_listener. solve_keeps.
  - done.
  - destruct (getElementById pg "contactForm"); [|done].
    apply Hv; [|done]. each_listener. apply contactForm_onSubmit_theme.
  - apply Hv; [|done]. each_listener.
    + apply navbar_onScroll_theme.
    + apply activeLink_onScroll_theme.
    + apply scrollTop_onScroll_theme.
  - destruct (themeListeners w); [|done].
    simpl. unfold report. rewrite onSystemThemeChange_stored by exact Hs. done.
  - apply Hv; [|done]. each_listener. apply observer_callback_theme.
  - destruct (timers w !! n) as [[d task]|]; [|done].
    apply Hv; [|done]. each_listener. apply run_task_theme.
Qed.

Lemma run_theme_fixed evs w t :
  truthy (storedTheme w) = true →
  themeToggle (manager w) = Some t →
  Forall (λ ev, ev ≠ Click t) evs →
  themeView (run pg evs w) = themeView w.
Proof.
  intros Hs Ht Hevs. revert w Hs Ht.
  induction Hevs as [|ev evs Hev _ IH]; intros w Hs Ht; simpl; [done|].
  assert (E : themeView (step pg ev w) = themeView w).
  { apply step_theme_fixed; [done|]. intros e -> He. congruence. }
  unfold themeView, storedTheme in *. injection E as E1 E2 E3 E4.
  rewrite IH; [congruence| |]; congruence.
Qed.

(** C4.  After a call of [toggleTheme] that returned, every sequence of
    events without a further click on the toggle, system colour-scheme
    notifications among them, leaves [currentTheme], [data-theme] and the
    stored entry at the value the toggle chose.  The listener of the
    notification is guarded by the stored entry: while a (non-empty) value
    is stored it does nothing, and with no entry it applies the reported
    preference through [setTheme]. *)
Theorem explicit_choice_overrides_system (w w1 : World) (t : ElemId) (evs : list Event) :
  ThemeManager_toggleTheme pg w = (w1, Return tt) →
  themeToggle (manager w) = Some t →
  Forall (λ ev, ev ≠ Click t) evs →
  (let w2 := run pg evs w1 in
   currentTheme (manager w2) = currentTheme (manager w1) ∧
   dataTheme pg w2 = Some (currentTheme (manager w1)) ∧
   storedTheme w2 = Some (currentTheme (manager w1)) ∧
   currentTheme (manager w1) =
     (if bool_decide (currentTheme (manager w) = "light") then "dark" else "light")) ∧
  (∀ w' matches v, storedTheme w' = Some v → v ≠ "" →
     ThemeManager_onSystemThemeChange pg matches w' = (w', Return tt)) ∧
  (∀ w' matches, storedTheme w' = None →
     ThemeManager_onSystemThemeChange pg matches w' =
     ThemeManager_setTheme pg (if matches then "dark" else "light") w').
Proof.
  intros E Ht Hevs. split; [|split].
  - destruct (toggleTheme_returns w w1 E) as (t' & i & Ht' & Hi).
    destruct (toggleTheme_present pg w t' i Ht' Hi) as (w1' & E' & Hm & Hd & Hst & _).
    rewrite E in E'. injection E' as <-.
    assert (Ht1 : themeToggle (manager w1) = Some t) by (rewrite Hm; simpl; congruence).
    assert (Hs1 : truthy (storedTheme w1) = true).
    { rewrite Hst. simpl. by repeat case_bool_decide. }
    pose proof (run_theme_fixed evs w1 t Hs1 Ht1 Hevs) as Ev.
    unfold themeView in Ev. injection Ev as E1 E2 E3 E4.
    cbn zeta. unfold dataTheme, storedTheme in *.
    rewrite E1, E2, E3, Hd, Hst, Hm. done.
  - intros w' matches v Hv Hne. apply onSystemThemeChange_stored.
    rewrite Hv. simpl. by case_bool_decide.
  - intros w' matches Hv. apply onSystemThemeChange_unstored. by rewrite Hv.
Qed.

(** Two calls in a row, from a state where the attribute agrees with the
    field. *)
Lemma two_toggles_present w t i :
  themeToggle (manager w) = Some t → themeIcon (manager w) = Some i →
  currentTheme (manager w) = "light" ∨ currentTheme (manager w) = "dark" →
  ∃ w2, (ThemeManager_toggleTheme pg ;; ThemeManager_toggleTheme pg) w = (w2, Return tt) ∧
    currentTheme (manager w2) = currentTheme (manager w) ∧
    dataTheme pg w2 = Some (currentTheme (manager w)) ∧
    storedTheme w2 = Some (currentTheme (manager w)).
Proof.
  intros Ht Hi Hcur.
  destruct (toggleTheme_present pg w t i Ht Hi) as (w1 & E1 & Hm1 & _).
  assert (Ht1 : themeToggle (manager w1) = Some t) by (by rewrite Hm1).
  assert (Hi1 : themeIcon (manager w1) = Some i) by (by rewrite Hm1).
  destruct (toggleTheme_present pg w1 t i Ht1 Hi1) as (w2 & E2 & Hm2 & Hd2 & Hs2 & _).
  exists w2. unfold mbind, JS_bind. rewrite E1, E2.
  rewrite Hd2, Hs2, Hm2, Hm1. simpl.
  destruct Hcur as [-> | ->]; done.
Qed.

(** C5.  In every state of a session in which initialization has
    completed and [currentTheme] is ['light'] or ['dark'], two calls of
    [toggleTheme] in succession return, and [currentTheme] and the
    [data-theme] attribute (and the stored entry) have the values they had
    before the first call. *)
Theorem toggleTheme_twice (w0 : World) (before after : list Event) :
  pristine w0 →
  let w := session pg w0 before after in
  themeListeners w = true →
  currentTheme (manager w) = "light" ∨ currentTheme (manager w) = "dark" →
  ∃ w2, (ThemeManager_toggleTheme pg ;; ThemeManager_toggleTheme pg) w = (w2, Return tt) ∧
    currentTheme (manager w2) = currentTheme (manager w) ∧
    dataTheme pg w2 = dataTheme pg w ∧
    storedTheme w2 = storedTheme w.
Proof.
  intros H0 w HL Hcur.
  destruct (session_synced pg w0 before after H0 HL) as ([t Ht] & [i Hi] & _ & Hs & Hd).
  fold w in Ht, Hi, Hs, Hd.
  destruct (two_toggles_present w t i Ht Hi Hcur) as (w2 & E & Hm & Hd2 & Hs2).
  exists w2. rewrite Hd, Hs. auto.
Qed.

(** C10, as amended.  Every call of [setTheme] that returns has written
    its argument under [theme], and with both controls present every call
    returns; so does the call made during initialization, before any
    toggle: with both elements on the page construction returns with the
    entry written.  Hence in every session, at every moment after
    initialization has completed, local storage holds a [theme] entry
    equal to [currentTheme], and the [data-theme] attribute equals the
    stored value. *)
Theorem setTheme_always_persists :
  (∀ theme w, is_Some (themeToggle (manager w)) → is_Some (themeIcon (manager w)) →
     ∃ w', ThemeManager_setTheme pg theme w = (w', Return tt) ∧
       storedTheme w' = Some theme) ∧
  (∀ theme w w', ThemeManager_setTheme pg theme w = (w', Return tt) →
     storedTheme w' = Some theme) ∧
  (∀ w, is_Some (getElementById pg "themeToggle") →
     is_Some (getElementById pg "themeIcon") →
     ∃ w', ThemeManager_new pg w = (w', Return tt) ∧
       storedTheme w' = Some (currentTheme (manager w')) ∧
       dataTheme pg w' = storedTheme w') ∧
  (∀ w w', ThemeManager_new pg w = (w', Return tt) →
     storedTheme w' = Some (currentTheme (manager w')) ∧
     dataTheme pg w' = storedTheme w') ∧
  (∀ w0 before after, pristine w0 →
     let w := session pg w0 before after in
     themeListeners w = true →
     storedTheme w = Some (currentTheme (manager w)) ∧
     dataTheme pg w = storedTheme w).
Proof.
  assert (Hnew : ∀ w t i, getElementById pg "themeToggle" = Some t →
            getElementById pg "themeIcon" = Some i →
            ∃ w', ThemeManager_new pg w = (w', Return tt) ∧
              storedTheme w' = Some (currentTheme (manager w')) ∧
              dataTheme pg w' = storedTheme w').
  { intros w t i Ht Hi.
    destruct (ThemeManager_new_present pg w t i Ht Hi) as (w' & E & Hm & Hd & Hs & _).
    exists w'. rewrite Hm, Hd, Hs. done. }
  split; [|split; [|split; [|split]]].
  - intros theme w [t Ht] [i Hi].
    destruct (setTheme_present pg theme w t i Ht Hi) as (w' & E & _ & _ & Hs & _). eauto.
  - intros theme w w' E.
    destruct (themeToggle (manager w)) as [t|] eqn:Ht;
      [destruct (themeIcon (manager w)) as [i|] eqn:Hi|].
    + destruct (setTheme_present pg theme w t i Ht Hi) as (w1 & E1 & _ & _ & Hs & _).
      congruence.
    + destruct (setTheme_absent pg theme w (or_intror Hi)) as (w1 & E1 & _). congruence.
    + destruct (setTheme_absent pg theme w (or_introl Ht)) as (w1 & E1 & _). congruence.
  - intros w [t Ht] [i Hi]. eauto.
  - intros w w' E.
    destruct (getElementById pg "themeToggle") as [t|] eqn:Ht;
      [destruct (getElementById pg "themeIcon") as [i|] eqn:Hi|].
    + destruct (Hnew w t i eq_refl eq_refl) as (w1 & E1 & H1). congruence.
    + destruct (ThemeManager_new_absent pg w (or_intror Hi)) as (w1 & E1 & _). congruence.
    + destruct (ThemeManager_new_absent pg w (or_introl Ht)) as (w1 & E1 & _). congruence.
  - intros w0 before after H0 w HL.
    destruct (session_synced pg w0 before after H0 HL) as (_ & _ & _ & Hs & Hd).
    fold w in Hs, Hd. rewrite Hd, Hs. done.
Qed.

End Toggle.

Lemma explicit_choice_overrides_system_witness :
  ThemeManager_toggleTheme samplePage loadedVisit = (toggledVisit, Return tt) ∧
  let w2 := run samplePage [MediaChange false; Scroll 700; MediaChange true] toggledVisit in
  currentTheme (manager w2) = currentTheme (manager toggledVisit) ∧
  dataTheme samplePage w2 = Some (currentTheme (manager toggledVisit)).
Proof.
  assert (E : ThemeManager_toggleTheme samplePage loadedVisit = (toggledVisit, Return tt))
    by (vm_compute; reflexivity).
  assert (Ht : themeToggle (manager loadedVisit) = Some 1%nat)
    by (vm_compute; reflexivity).
  assert (Hevs : Forall (λ ev, ev ≠ Click 1%nat)
            [MediaChange false; Scroll 700; MediaChange true])
    by (repeat constructor; discriminate).
  split; [exact E|].
  destruct (explicit_choice_overrides_system samplePage loadedVisit toggledVisit 1%nat
              [MediaChange false; Scroll 700; MediaChange true] E Ht Hevs)
    as [(H1 & H2 & _) _].
  split; [exact H1 | exact H2].
Defined.

Lemma toggleTheme_twice_witness :
  pristine firstVisit ∧
  let w := session samplePage firstVisit [] [Click 1%nat] in
  currentTheme (manager w) = "dark" ∧
  ∃ w2, (ThemeManager_toggleTheme samplePage ;; ThemeManager_toggleTheme samplePage) w
          = (w2, Return tt) ∧
    currentTheme (manager w2) = currentTheme (manager w) ∧
    dataTheme samplePage w2 = dataTheme samplePage w ∧
    storedTheme w2 = storedTheme w.
Proof.
  assert (H0 : pristine firstVisit) by (split; reflexivity).
  split; [exact H0|]. split; [vm_compute; reflexivity|].
  apply (toggleTheme_twice samplePage firstVisit [] [Click 1%nat] H0).
  - vm_compute; reflexivity.
  - right. vm_compute; reflexivity.
Defined.

Lemma setTheme_always_persists_witness :
  (∃ w', ThemeManager_setTheme samplePage "dark" loadedVisit = (w', Return tt) ∧
     storedTheme w' = Some "dark") ∧
  storedTheme (ThemeManager_setTheme samplePage "dark" loadedVisit).1 = Some "dark" ∧
  (∃ w', ThemeManager_new samplePage firstVisit = (w', Return tt) ∧
     storedTheme w' = Some (currentTheme (manager w')) ∧
     dataTheme samplePage w' = storedTheme w') ∧
  (storedTheme (ThemeManager_new samplePage firstVisit).1
   = Some (currentTheme (manager (ThemeManager_new samplePage firstVisit).1))) ∧
  (storedTheme loadedVisit = Some (currentTheme (manager loadedVisit)) ∧
   dataTheme samplePage loadedVisit = storedTheme loadedVisit).
Proof.
  destruct (setTheme_always_persists samplePage) as (H1 & H2 & H3 & H4 & H5).
  split; [|split; [|split; [|split]]].
  - apply H1; vm_compute; eauto.
  - apply (H2 "dark" loadedVisit). vm_compute; reflexivity.
  - apply H3; vm_compute; eauto.
  - apply (H4 firstVisit). vm_compute; reflexivity.
  - apply (H5 firstVisit [] []); [split; reflexivity | vm_compute; reflexivity].
Defined.

(** C10 as stated fails for the call made during initialization on the
    page without the icon: [setTheme] sets [data-theme] and throws at the
    icon, before line 81, and local storage has no [theme] entry after
    the call. *)
Lemma setTheme_without_icon_skips_write :
  let w0 := set_manager
    (mkThemeManager (getElementById pageWithoutIcon "themeToggle")
       (getElementById pageWithoutIcon "themeIcon") "light") firstVisit in
  ∃ w', ThemeManager_setTheme pageWithoutIcon "light" w0 = (w', Throw TypeError) ∧
    ThemeManager_new pageWithoutIcon firstVisit = (w', Throw TypeError) ∧
    currentTheme (manager w') = "light" ∧
    dataTheme pageWithoutIcon w' = Some "light" ∧
    storedTheme w' = None ∧
    storedTheme w' ≠ Some "light".
Proof.
  eexists. split; [vm_compute; reflexivity|].
  repeat split; try (vm_compute; reflexivity). vm_compute. discriminate.
Qed.

(** ** Class lists *)

Lemma filter_iff_on {A} (P1 P2 : A → Prop)
    `{!∀ x, Decision (P1 x), !∀ x, Decision (P2 x)} (l : list A) :
  (∀ x, x ∈ l → P1 x ↔ P2 x) → filter P1 l = filter P2 l.
Proof.
  induction l as [|a l IH]; intros Hiff; [done|].
  assert (Ha : P1 a ↔ P2 a) by (apply Hiff, list_elem_of_here).
  assert (Hl : filter P1 l = filter P2 l).
  { apply IH. intros x Hx. apply Hiff. by apply list_elem_of_further. }
  destruct (decide (P1 a)) as [H1|H1].
  - rewrite !filter_cons_True by tauto. by rewrite Hl.
  - rewrite !filter_cons_False by tauto. exact Hl.
Qed.

Lemma set_classList_same w : set_classList (classList w) w = w.
Proof. by destruct w. Qed.

Lemma elem_classes_add e c w e' c' :
  c' ∈ classes (classList_add e c w).1 e' ↔ c' ∈ classes w e' ∨ (e' = e ∧ c' = c).
Proof.
  unfold classList_add, modify. simpl. case_bool_decide as Hc; simpl.
  - split; [auto|]. intros [H | [-> ->]]; done.
  - unfold classes at 1. simpl. destruct (decide (e' = e)) as [->|Hne].
    + rewrite lookup_insert_eq. simpl. rewrite elem_of_app, list_elem_of_singleton.
      intuition congruence.
    + rewrite lookup_insert_ne by done. fold (classes w e'). intuition congruence.
Qed.

Lemma elem_classes_remove e c w e' c' :
  c' ∈ classes (classList_remove e c w).1 e' ↔ c' ∈ classes w e' ∧ ¬ (e' = e ∧ c' = c).
Proof.
  unfold classList_remove, modify. simpl. case_bool_decide as Hc; simpl.
  - unfold classes at 1. simpl. destruct (decide (e' = e)) as [->|Hne].
    + rewrite lookup_insert_eq. simpl. rewrite list_elem_of_filter. intuition congruence.
    + rewrite lookup_insert_ne by done. fold (classes w e'). intuition congruence.
  - split; [|intuition congruence]. intros H. split; [done|]. intros [-> ->]. done.
Qed.

Lemma classes_add_other e c w e' :
  e' ≠ e → classes (classList_add e c w).1 e' = classes w e'.
Proof.
  intros Hne. unfold classList_add, modify. simpl. case_bool_decide; [done|].
  unfold classes. simpl. by rewrite lookup_insert_ne.
Qed.

Lemma classes_remove_other e c w e' :
  e' ≠ e → classes (classList_remove e c w).1 e' = classes w e'.
Proof.
  intros Hne. unfold classList_remove, modify. simpl. case_bool_decide; [|done].
  unfold classes. simpl. by rewrite lookup_insert_ne.
Qed.

Lemma classList_add_shape e c w :
  ∃ cl, classList_add e c w = (set_classList cl w, Return tt).
Proof.
  unfold classList_add, modify. case_bool_decide; [|eauto].
  exists (classList w). by rewrite set_classList_same.
Qed.

Lemma classList_remove_shape e c w :
  ∃ cl, classList_remove e c w = (set_classList cl w, Return tt).
Proof.
  unfold classList_remove, modify. case_bool_decide; [eauto|].
  exists (classList w). by rewrite set_classList_same.
Qed.

(** ** Scrolling *)

Section Scrolling.
Context (pg : Page).

(** The loop of the handler computes the [id] of the last qualifying
    section. *)
Lemma currentSection_last w :
  currentSection pg w =
  match lastQualifying pg w with
  | Some section => attributes w !! (section, "id")
  | None => Some ""
  end.
Proof.
  unfold currentSection, lastQualifying.
  induction (querySelectorAll pg "section") as [|s l IH] using rev_ind; [done|].
  rewrite foldl_app, filter_app. simpl. rewrite IH.
  destruct (decide (qualifies w s)) as [Hq|Hq].
  - rewrite (filter_cons_True _ _ _ Hq), filter_nil, last_snoc.
    unfold qualifies in Hq. by rewrite bool_decide_eq_true_2.
  - rewrite (filter_cons_False _ _ _ Hq), filter_nil, app_nil_r.
    unfold qualifies in Hq. by rewrite bool_decide_eq_false_2.
Qed.

Lemma activeTarget_current w :
  "#" +:+ js_string (currentSection pg w) = activeTarget pg w.
Proof.
  unfold activeTarget. rewrite currentSection_last.
  by destruct (lastQualifying pg w).
Qed.

(** The callback of the second loop: the link loses the marker and gets
    it back when its [href] is the target. *)
Lemma activeLink_mark_spec current link w :
  ∃ cl, activeLink_mark current link w = (set_classList cl w, Return tt) ∧
    (isActive (set_classList cl w) link ↔
     targets w ("#" +:+ js_string current) link) ∧
    (∀ e, e ≠ link → classes (set_classList cl w) e = classes w e).
Proof.
  unfold activeLink_mark, mbind, JS_bind, getAttribute, gets.
  destruct (classList_remove_shape link "active" w) as [cl1 E1].
  pose proof (elem_classes_remove link "active" w) as R1.
  pose proof (classes_remove_other link "active" w) as O1.
  rewrite E1 in R1, O1 |- *. cbn [fst] in R1, O1.
  cbn [attributes set_classList].
  case_bool_decide as Hh.
  - destruct (classList_add_shape link "active" (set_classList cl1 w)) as [cl2 E2].
    pose proof (elem_classes_add link "active" (set_classList cl1 w)) as A2.
    pose proof (classes_add_other link "active" (set_classList cl1 w)) as O2.
    rewrite E2 in A2, O2 |- *. cbn [fst] in A2, O2.
    assert (Hset : set_classList cl2 (set_classList cl1 w) = set_classList cl2 w)
      by (by destruct w).
    rewrite Hset in A2, O2 |- *.
    exists cl2. split; [done|]. split.
    + unfold isActive, targets. rewrite A2. intuition congruence.
    + intros e He. rewrite (O2 e He). by apply O1.
  - exists cl1. split; [done|]. split.
    + unfold isActive, targets. rewrite R1. intuition congruence.
    + exact O1.
Qed.

Lemma activeLink_loop current links w :
  ∃ cl, forEach links (activeLink_mark current) w = (set_classList cl w, Return tt) ∧
    (∀ link, link ∈ links →
       isActive (set_classList cl w) link ↔
       targets w ("#" +:+ js_string current) link) ∧
    (∀ e, e ∉ links → classes (set_classList cl w) e = classes w e).
Proof.
  revert w. induction links as [|x links IH]; intros w; cbn [forEach].
  - exists (classList w). rewrite set_classList_same.
    split; [done|]. split; [|done]. intros link Hl. by apply elem_of_nil in Hl.
  - destruct (activeLink_mark_spec current x w) as (cl2 & E2 & Hx & Hother).
    unfold mbind, JS_bind. rewrite E2.
    destruct (IH (set_classList cl2 w)) as (cl & E & Hin & Hout).
    assert (Hset : ∀ c, set_classList c (set_classList cl2 w) = set_classList c w)
      by (intros c; by destruct w).
    assert (Ht : ∀ h l, targets (set_classList cl2 w) h l ↔ targets w h l) by done.
    rewrite Hset in E, Hin, Hout.
    exists cl. split; [exact E|]. split.
    + intros link Hl. destruct (decide (link ∈ links)) as [Hll|Hll].
      * rewrite (Hin link Hll). apply Ht.
      * apply elem_of_cons in Hl as [->|Hl]; [|done].
        unfold isActive in *. rewrite (Hout x Hll). exact Hx.
    + intros e He. apply not_elem_of_cons in He as [He1 He2].
      rewrite (Hout e He2). by apply Hother.
Qed.

(** C2, as amended.  For every scroll offset and every list of sections,
    the handler returns and changes class lists only; afterwards a
    navigation link carries the [active] marker exactly when its [href] is
    [#] followed by the [id] of the last section in document order whose
    top minus 200px is at most the offset ([#] alone when no section
    qualifies).  So the marked links are the links with that [href]:
    exactly one when exactly one link has it, none when none has. *)
Theorem activeLink_onScroll_marks (w : World) :
  let links := querySelectorAll pg ".nav-links a" in
  ∃ w', activeLink_onScroll pg w = (w', Return tt) ∧
    w' = set_classList (classList w') w ∧
    (∀ link, link ∈ links → isActive w' link ↔ targets w (activeTarget pg w) link) ∧
    filter (isActive w') links = filter (targets w (activeTarget pg w)) links ∧
    (∀ link, filter (targets w (activeTarget pg w)) links = [link] →
             filter (isActive w') links = [link]) ∧
    (filter (targets w (activeTarget pg w)) links = [] →
     ∀ link, link ∈ links → ¬ isActive w' link).
Proof.
  intros links. unfold activeLink_onScroll, mbind, JS_bind, gets.
  destruct (activeLink_loop (currentSection pg w) links w) as (cl & E & Hin & _).
  rewrite activeTarget_current in Hin. fold links. rewrite E.
  assert (Hf : filter (isActive (set_classList cl w)) links
               = filter (targets w (activeTarget pg w)) links).
  { apply filter_iff_on. intros link Hl. by apply Hin. }
  exists (set_classList cl w). split; [done|]. split; [by destruct w|].
  split; [exact Hin|]. split; [exact Hf|]. split.
  - intros link Hl. by rewrite Hf.
  - intros Hnone link Hl Hact.
    assert (link ∈ filter (targets w (activeTarget pg w)) links) as Hin'.
    { apply list_elem_of_filter. split; [by apply Hin | done]. }
    rewrite Hnone in Hin'. by apply elem_of_nil in Hin'.
Qed.

End Scrolling.

Lemma activeLink_onScroll_marks_witness :
  let w := set_scrollY 450 firstVisit in
  activeTarget samplePage w = "#about" ∧
  filter (isActive (activeLink_onScroll samplePage w).1)
    (querySelectorAll samplePage ".nav-links a") = [8%nat].
Proof.
  intros w. split; [reflexivity|].
  destruct (activeLink_onScroll_marks samplePage w) as (w' & E & _ & _ & _ & Hone & _).
  rewrite E. apply Hone. vm_compute. reflexivity.
Defined.

(** C2 as stated fails: on a page whose first section starts 300px down,
    at offset 0 no section qualifies, and after the handler none of the
    three navigation links carries the marker. *)
Lemma scroll_above_first_section_marks_none :
  scrollY belowHeader = 0 ∧
  querySelectorAll samplePage "section" = [10%nat; 11%nat; 12%nat] ∧
  offsetTop belowHeader !! 10%nat = Some 300 ∧
  querySelectorAll samplePage ".nav-links a" = [7%nat; 8%nat; 9%nat] ∧
  lastQualifying samplePage belowHeader = None ∧
  let w' := (activeLink_onScroll samplePage belowHeader).1 in
  filter (isActive w') (querySelectorAll samplePage ".nav-links a") = [] ∧
  ¬ ∃ link, link ∈ querySelectorAll samplePage ".nav-links a" ∧ isActive w' link.
Proof.
  repeat split; try (vm_compute; reflexivity).
  intros (link & Hl & Hact).
  assert (H : link ∈ filter (isActive (activeLink_onScroll samplePage belowHeader).1)
                (querySelectorAll samplePage ".nav-links a"))
    by (by apply list_elem_of_filter).
  vm_compute in H. by apply elem_of_nil in H.
Qed.

(** C9.  With a navbar on the page, the handler returns and its only
    effect is to set the navbar's background to [navbarBackground] of two
    booleans: whether the offset exceeds 50, and whether [data-theme] is
    ['dark'].  The four values differ, so both inputs count: the dark
    colour (17, 24, 39) for dark and white otherwise, at opacity 0.98 above
    the threshold and 0.95 below. *)
Theorem navbar_onScroll_background (pg : Page) (w : World) (navbar : ElemId) :
  querySelector pg ".navbar" = Some navbar →
  navbar_onScroll pg w =
    (set_style
       (<[(navbar, "background") :=
            navbarBackground (bool_decide (50 < scrollY w))
              (bool_decide (dataTheme pg w = Some "dark"))]> (style w)) w,
     Return tt) ∧
  (∀ scrolled dark scrolled' dark',
     navbarBackground scrolled dark = navbarBackground scrolled' dark' →
     scrolled = scrolled' ∧ dark = dark').
Proof.
  intros Hnb. split.
  - unfold navbar_onScroll. js_run. rewrite Hnb. unfold dataTheme.
    do 2 case_bool_decide; reflexivity.
  - intros [] [] [] []; simpl; intros H; try done; discriminate.
Qed.

Lemma navbar_onScroll_background_witness :
  querySelector samplePage ".navbar" = Some 4%nat ∧
  style (navbar_onScroll samplePage toggledVisit).1 !! (4%nat, "background")
  = Some "rgba(17, 24, 39, 0.95)".
Proof.
  split; [reflexivity|].
  destruct (navbar_onScroll_background samplePage toggledVisit 4%nat eq_refl) as [E _].
  rewrite E. vm_compute. reflexivity.
Defined.

(** ** The intersection observer *)

Lemma observer_callback_classes entries w e c :
  (observer_callback entries w).2 = Return tt ∧
  (c ∈ classes (observer_callback entries w).1 e ↔
   c ∈ classes w e ∨
   (c = "fade-in" ∧
    ∃ entry, entry ∈ entries ∧ target entry = e ∧ isIntersecting entry = true)).
Proof.
  unfold observer_callback. revert w.
  induction entries as [|x entries IH]; intros w; cbn [forEach].
  - split; [done|]. simpl. split; [auto|].
    intros [H | (_ & entry & Hin & _)]; [done | by apply elem_of_nil in Hin].
  - unfold mbind, JS_bind.
    destruct (isIntersecting x) eqn:Hx.
    + destruct (classList_add_shape (target x) "fade-in" w) as [cl E].
      pose proof (elem_classes_add (target x) "fade-in" w e c) as A.
      rewrite E in A |- *. cbn [fst] in A.
      destruct (IH (set_classList cl w)) as [IH1 IH2].
      split; [exact IH1|]. rewrite IH2, A. split.
      * intros [[H | [-> ->]] | (-> & entry & Hin & Ht & Hi)]; [auto| |].
        -- right. split; [done|]. exists x. by rewrite elem_of_cons; auto.
        -- right. split; [done|]. exists entry. rewrite elem_of_cons. auto.
      * intros [H | (-> & entry & Hin & Ht & Hi)]; [auto|].
        apply elem_of_cons in Hin as [->|Hin]; [auto|].
        right. split; [done|]. eauto.
    + simpl. destruct (IH w) as [IH1 IH2].
      split; [exact IH1|]. rewrite IH2. split.
      * intros [H | (-> & entry & Hin & Ht & Hi)]; [auto|].
        right. split; [done|]. exists entry. rewrite elem_of_cons. auto.
      * intros [H | (-> & entry & Hin & Ht & Hi)]; [auto|].
        apply elem_of_cons in Hin as [->|Hin]; [congruence|].
        right. split; [done|]. eauto.
Qed.

Lemma observer_run_keeps_class callbacks w e c :
  c ∈ classes w e → c ∈ classes (observer_run callbacks w) e.
Proof.
  revert w. induction callbacks as [|entries callbacks IH]; intros w Hc; simpl; [done|].
  apply IH. apply (observer_callback_classes entries w e c). auto.
Qed.

(** C6.  Once a callback has reported an element as intersecting, the
    element carries [fade-in], and it still carries it after every later
    sequence of callbacks, whatever they report: the callback only adds
    the class. *)
Theorem revealed_stays_revealed
    (w : World) (entries : list IntersectionEntry) (entry : IntersectionEntry)
    (later : list (list IntersectionEntry)) :
  entry ∈ entries → isIntersecting entry = true →
  let w1 := (observer_callback entries w).1 in
  "fade-in" ∈ classes w1 (target entry) ∧
  "fade-in" ∈ classes (observer_run later w1) (target entry).
Proof.
  intros Hin Hi w1.
  assert (H1 : "fade-in" ∈ classes w1 (target entry)).
  { apply (observer_callback_classes entries w (target entry) "fade-in"). eauto 10. }
  split; [exact H1|]. by apply observer_run_keeps_class.
Qed.

Lemma revealed_stays_revealed_witness :
  let w1 := (observer_callback [mkEntry 11%nat true] loadedVisit).1 in
  "fade-in" ∈ classes w1 11%nat ∧
  "fade-in" ∈ classes
     (observer_run [[mkEntry 11%nat false]; [mkEntry 10%nat true; mkEntry 11%nat false]] w1)
     11%nat.
Proof.
  apply (revealed_stays_revealed loadedVisit [mkEntry 11%nat true] (mkEntry 11%nat true)).
  - apply list_elem_of_here.
  - reflexivity.
Defined.

(** ** The contact form *)

Lemma truthy_empty_field w name :
  empty_field w name → truthy (FormData_get (formControls w) name) = false.
Proof. by intros [-> | ->]. Qed.

(** C7.  When one of [name], [email], [message] is empty, the submit
    handler prevents the default action, shows the validation message and
    does nothing else: the controls of the form keep their values, through
    the handler and through the whole [submit] event. *)
Theorem contactForm_rejects_empty (pg : Page) (w : World) :
  empty_field w "name" ∨ empty_field w "email" ∨ empty_field w "message" →
  contactForm_onSubmit w =
    (set_alerts (alerts w ++ ["Please fill in all fields."])
       (set_defaultPrevented true w), Return tt) ∧
  formControls (contactForm_onSubmit w).1 = formControls w ∧
  formControls (step pg Submit w) = formControls w ∧
  (is_Some (getElementById pg "contactForm") →
   alerts (step pg Submit w) = alerts w ++ ["Please fill in all fields."]).
Proof.
  intros H.
  assert (E : ∀ w', formControls w' = formControls w →
            contactForm_onSubmit w' =
            (set_alerts (alerts w' ++ ["Please fill in all fields."])
               (set_defaultPrevented true w'), Return tt)).
  { intros w' Hw'. unfold contactForm_onSubmit. js_run. rewrite Hw'.
    destruct H as [H | [H | H]]; apply truthy_empty_field in H; rewrite H;
      simpl; rewrite ?orb_true_r; reflexivity. }
  split; [by apply E|]. split; [by rewrite E|].
  cbn [step]. destruct (getElementById pg "contactForm") as [f|].
  - cbn [dispatch foldl]. unfold report. rewrite E by done.
    split; [done|]. done.
  - split; [done|]. by intros [? ?].
Qed.

Lemma contactForm_rejects_empty_witness :
  empty_field firstVisit "email" ∧
  formControls (step samplePage Submit firstVisit) = formControls firstVisit ∧
  alerts (step samplePage Submit firstVisit) = ["Please fill in all fields."].
Proof.
  assert (H : empty_field firstVisit "email") by (left; reflexivity).
  split; [exact H|].
  destruct (contactForm_rejects_empty samplePage firstVisit (or_intror (or_introl H)))
    as (_ & _ & H3 & H4).
  split; [exact H3|]. apply H4. vm_compute. eauto.
Defined.

(** ** Navigation anchors *)

(** The guard of line 6: a valid selector that finds no element leaves
    the handler with [preventDefault] as its only effect, and it returns. *)
Lemma anchor_click_no_match (pg : Page) (w : World) (this : ElemId) :
  let sel := js_string (attributes w !! (this, "href")) in
  selectorValid pg sel = true → querySelector pg sel = None →
  anchor_onClick pg this w = (set_defaultPrevented true w, Return tt).
Proof.
  intros sel Hv Hq. unfold anchor_onClick. js_run. fold sel.
  rewrite Hv. simpl. by rewrite Hq.
Qed.

(** A string that is no selector makes [document.querySelector] throw at
    line 5, before the guard. *)
Lemma anchor_click_invalid_selector (pg : Page) (w : World) (this : ElemId) :
  let sel := js_string (attributes w !! (this, "href")) in
  selectorValid pg sel = false →
  anchor_onClick pg this w = (set_defaultPrevented true w, Throw SyntaxError).
Proof.
  intros sel Hv. unfold anchor_onClick. js_run. fold sel.
  by rewrite Hv.
Qed.

(** C8 fails on the code.  An anchor whose [href] is [#] alone is matched
    by the selector of line 2 and resolves to no element, but
    [document.querySelector] rejects the string: the handler throws a
    [SyntaxError] at line 5, before the guard of line 6, and the click is
    a reported error.  With the [href] [#blog], a valid selector without
    an element, the same click only prevents the default action and
    reports nothing. *)
Theorem anchor_click_hash_throws :
  16%nat ∈ querySelectorAll samplePage anchorSelector ∧
  attributes placeholderVisit !! (16%nat, "href") = Some "#" ∧
  querySelector samplePage "#" = None ∧
  selectorValid samplePage "#" = false ∧
  anchor_onClick samplePage 16%nat placeholderVisit
    = (set_defaultPrevented true placeholderVisit, Throw SyntaxError) ∧
  errors placeholderVisit = [] ∧
  errors (step samplePage (Click 16%nat) placeholderVisit) = [SyntaxError] ∧
  anchor_onClick samplePage 16%nat firstVisit
    = (set_defaultPrevented true firstVisit, Return tt) ∧
  step samplePage (Click 16%nat) firstVisit = set_defaultPrevented true firstVisit.
Proof.
  split; [compute_done|].
  repeat split; vm_compute; reflexivity.
Qed.

(** ** The reveal mark through every event

    The callback aside, the script removes classes in two ways: it
    removes [active], and [setTheme] overwrites the class list of the
    theme icon.  So an element other than the icon keeps [fade-in]
    through every event of the page. *)

Section Reveal.
Context (pg : Page) (e : ElemId).

Lemma reveal_frame (f : World → World) :
  (∀ w, classList (f w) = classList w ∧ manager (f w) = manager w) →
  preserves (reveal_kept e) (modify f).
Proof.
  intros Hf. apply preserves_modify. intros w _.
  destruct (Hf w) as [Hc Hm]. unfold classes. rewrite Hc, Hm. auto.
Qed.

Lemma classList_add_reveal e' c : preserves (reveal_kept e) (classList_add e' c).
Proof.
  intros w _. split.
  - unfold classList_add, modify. simpl. by case_bool_decide.
  - intros H. apply elem_classes_add. auto.
Qed.

Lemma classList_remove_reveal e' c :
  c ≠ "fade-in" → preserves (reveal_kept e) (classList_remove e' c).
Proof.
  intros Hc w _. split.
  - unfold classList_remove, modify. simpl. by case_bool_decide.
  - intros H. apply elem_classes_remove. split; [done|]. intros [_ ?]. congruence.
Qed.

Lemma classList_toggle_reveal e' c :
  c ≠ "fade-in" → preserves (reveal_kept e) (classList_toggle e' c).
Proof.
  intros Hc. unfold classList_toggle.
  apply preserves_bind; [apply _ | apply preserves_gets; apply _ |].
  intros []; [by apply classList_remove_reveal | apply classList_add_reveal].
Qed.

Lemma setTheme_reveal theme : preserves (reveal_kept e) (ThemeManager_setTheme pg theme).
Proof.
  intros w Hne. unfold ThemeManager_setTheme. js_run.
  destruct (themeIcon (manager w)) as [i|] eqn:Hi;
    destruct (themeToggle (manager w));
    destruct (bool_decide (theme = "dark")); simpl;
    (split; [done|]); unfold classes; simpl;
    rewrite ?lookup_insert_ne by congruence; done.
Qed.

Ltac reveal_leaf :=
  idtac;
  lazymatch goal with
  | |- preserves _ (classList_add _ _) => apply classList_add_reveal
  | |- preserves _ (classList_remove _ _) => apply classList_remove_reveal; discriminate
  | |- preserves _ (classList_toggle _ _) => apply classList_toggle_reveal; discriminate
  | |- preserves _ (ThemeManager_setTheme _ _) => apply setTheme_reveal
  | |- preserves _ (modify _) =>
      apply reveal_frame; intros ?; repeat case_bool_decide; split; reflexivity
  end.

Ltac solve_reveal :=
  autounfold with handlers dom; repeat preserves_step reveal_leaf.

Lemma click_listeners_reveal w e' :
  Forall (preserves (reveal_kept e)) (click_listeners pg w e').
Proof.
  unfold click_listeners. each_listener.
  - solve_reveal.
  - solve_reveal.
  - solve_reveal.
  - unfold ThemeManager_toggleTheme. solve_reveal.
Qed.

Lemma step_reveal ev w : reveal_kept e w (step pg ev w).
Proof.
  assert (He : ∀ v w', reveal_kept e w' (set_errors v w')) by (intros v w' _; done).
  assert (Hd : ∀ hs w', Forall (preserves (reveal_kept e)) hs →
             classList w' = classList w → manager w' = manager w →
             reveal_kept e w (dispatch hs w')).
  { intros hs w' Hhs Hc Hm. transitivity w'.
    - intros _. unfold classes. rewrite Hc, Hm. done.
    - apply (preserves_dispatch (reveal_kept e)); [exact Hhs | exact He]. }
  destruct ev; cbn [step].
  - apply Hd; [apply click_listeners_reveal | done | done].
  - case_bool_decide; [|reflexivity]. apply Hd; [|done|done].
    each_listener. solve_reveal.
  - case_bool_decide; [|reflexivity]. apply Hd; [|done|done].
    each_listener. solve_reveal.
  - intros _. done.
  - destruct (getElementById pg "contactForm"); [|reflexivity].
    apply Hd; [|done|done]. each_listener. solve_reveal.
  - apply Hd; [|done|done]. each_listener; solve_reveal.
  - destruct (themeListeners w); [|intros _; done].
    apply Hd; [|done|done]. each_listener.
    unfold ThemeManager_onSystemThemeChange. solve_reveal.
  - apply Hd; [|done|done]. each_listener. solve_reveal.
  - destruct (timers w !! n) as [[d task]|]; [|reflexivity].
    apply Hd; [|done|done]. each_listener. destruct task; solve_reveal.
Qed.

Lemma run_reveal evs w : reveal_kept e w (run pg evs w).
Proof.
  revert w. induction evs as [|ev evs IH]; intros w; simpl; [reflexivity|].
  transitivity (step pg ev w); [apply step_reveal | apply IH].
Qed.

(** An element that is not the icon of the theme manager and carries
    [fade-in] carries it after every sequence of events. *)
Lemma revealed_through_events evs w :
  themeIcon (manager w) ≠ Some e →
  "fade-in" ∈ classes w e → "fade-in" ∈ classes (run pg evs w) e.
Proof. intros Hne Hc. by apply (run_reveal evs w Hne). Qed.

End Reveal.

(** * Further properties of the script *)

(** ** Relations kept by every event *)

Section StepPreserves.
Context (pg : Page) (R : relation World) `{!PreOrder R}.
Context (Hframe : event_frame R) (Hlisten : listeners_preserve pg R).

Lemma click_listeners_preserve w e : Forall (preserves R) (click_listeners pg w e).
Proof.
  destruct Hlisten as (Ha & Hh & Hn & Ht & _).
  unfold click_listeners. each_listener; auto.
Qed.

Lemma step_preserves ev w : R w (step pg ev w).
Proof.
  destruct Hframe as (He & Hp & Hf & Hs & Hd & Htm).
  destruct Hlisten as (Ha & Hh & Hn & Ht & Hme & Hml & Hc & Hnb & Hal & Hst & Hm & Ho & Hr).
  assert (Hdisp : ∀ hs w', Forall (preserves R) hs → R w w' → R w (dispatch hs w')).
  { intros hs w' Hhs Hw'. transitivity w'; [exact Hw'|].
    apply (preserves_dispatch R); [exact Hhs | exact He]. }
  destruct ev; cbn [step].
  - apply Hdisp; [apply click_listeners_preserve | apply Hp].
  - case_bool_decide; [|reflexivity]. apply Hdisp; [|reflexivity]. each_listener. apply Hme.
  - case_bool_decide; [|reflexivity]. apply Hdisp; [|reflexivity]. each_listener. apply Hml.
  - apply Hf.
  - destruct (getElementById pg "contactForm"); [|reflexivity].
    apply Hdisp; [|apply Hp]. each_listener. exact Hc.
  - apply Hdisp; [|apply Hs]. each_listener; assumption.
  - destruct (themeListeners w); [|apply Hd].
    apply Hdisp; [|apply Hd]. each_listener. apply Hm.
  - apply Hdisp; [|reflexivity]. each_listener. apply Ho.
  - destruct (timers w !! n) as [[d task]|]; [|reflexivity].
    apply Hdisp; [|apply Htm]. each_listener. apply Hr.
Qed.

Lemma run_preserves evs w : R w (run pg evs w).
Proof.
  revert w. induction evs as [|ev evs IH]; intros w; simpl; [reflexivity|].
  transitivity (step pg ev w); [apply step_preserves | apply IH].
Qed.

(** With the script and the three [DOMContentLoaded] listeners, a whole
    session. *)
Lemma session_preserves w0 before after :
  preserves R (main pg) → preserves R (ThemeManager_new pg) →
  preserves R (observe_all pg) → preserves R (start_animations pg) →
  R w0 (session pg w0 before after).
Proof.
  intros Hmain Hnew Hobs Hanim. unfold session.
  destruct Hframe as (He & _).
  transitivity (report (main pg) w0); [by apply (preserves_report R)|].
  etransitivity; [apply run_preserves|].
  etransitivity; [|apply run_preserves].
  apply (preserves_dispatch R); [|exact He].
  repeat constructor; assumption.
Qed.

End StepPreserves.

(** The listeners, unfolded down to their primitive steps. *)
Ltac unfold_script :=
  unfold ThemeManager_new, ThemeManager_init, ThemeManager_toggleTheme,
    ThemeManager_onSystemThemeChange, ThemeManager_setTheme;
  autounfold with handlers dom classops.

Ltac solve_listeners leaf :=
  repeat split; intros; try (match goal with t : Task |- _ => destruct t end);
  unfold_script; repeat preserves_step leaf.

(** ** Navigation *)

Lemma dispatch_app_list (hs1 hs2 : list (JS unit)) w :
  dispatch (hs1 ++ hs2) w = dispatch hs2 (dispatch hs1 w).
Proof. unfold dispatch. apply foldl_app. Qed.

Lemma forEach_remove_classes links c w :
  ∃ cl, forEach links (λ link, classList_remove link c) w
        = (set_classList cl w, Return tt) ∧
    ∀ e c', c' ∈ classes (set_classList cl w) e ↔
            c' ∈ classes w e ∧ ¬ (e ∈ links ∧ c' = c).
Proof.
  revert w. induction links as [|x links IH]; intros w; cbn [forEach].
  - exists (classList w). rewrite set_classList_same. split; [done|].
    intros e c'. rewrite elem_of_nil. tauto.
  - unfold mbind, JS_bind.
    destruct (classList_remove_shape x c w) as [cl1 E1].
    pose proof (elem_classes_remove x c w) as R1.
    rewrite E1 in R1 |- *. cbn [fst] in R1.
    destruct (IH (set_classList cl1 w)) as (cl & E & Hcl).
    assert (Hset : set_classList cl (set_classList cl1 w) = set_classList cl w)
      by (by destruct w).
    rewrite Hset in E, Hcl. exists cl. split; [exact E|].
    intros e c'. rewrite Hcl, R1, elem_of_cons. tauto.
Qed.

(** X1.  A click on an anchor whose [href] resolves to an element requests
    a smooth scroll to that element and moves the [active] marker: the
    clicked anchor carries it, no other navigation link does, and no other
    class of any element changes. *)
Theorem anchor_click_resolved (pg : Page) (w : World) (this t : ElemId) :
  let sel := js_string (attributes w !! (this, "href")) in
  selectorValid pg sel = true →
  querySelector pg sel = Some t →
  ∃ w', anchor_onClick pg this w = (w', Return tt) ∧
    scrollRequests w' = scrollRequests w ++ [IntoView t] ∧
    defaultPrevented w' = true ∧
    isActive w' this ∧
    (∀ link, link ∈ querySelectorAll pg ".nav-links a" → link ≠ this →
             ¬ isActive w' link) ∧
    (∀ e c, c ≠ "active" → c ∈ classes w' e ↔ c ∈ classes w e).
Proof.
  intros sel Hv Hq.
  unfold anchor_onClick, preventDefault, getAttribute, document_querySelector,
    scrollIntoView, mbind, JS_bind, modify, gets, mret, JS_ret.
  cbn [attributes set_defaultPrevented]. fold sel. rewrite Hv, Hq.
  set (w2 := set_scrollRequests _ _).
  destruct (forEach_remove_classes (querySelectorAll pg ".nav-links a") "active" w2)
    as (cl & E & Hcl).
  rewrite E.
  destruct (classList_add_shape this "active" (set_classList cl w2)) as [cl' E'].
  pose proof (elem_classes_add this "active" (set_classList cl w2)) as A.
  rewrite E' in A |- *. cbn [fst] in A.
  eexists. split; [reflexivity|].
  split; [done|]. split; [done|]. split; [|split].
  - unfold isActive. rewrite A. auto.
  - intros link Hl Hne. unfold isActive. rewrite A, Hcl. tauto.
  - intros e c Hc. rewrite A, Hcl.
    assert (classes w2 e = classes w e) as -> by done. tauto.
Qed.

Lemma anchor_click_resolved_witness :
  ∃ w', anchor_onClick samplePage 8%nat firstVisit = (w', Return tt) ∧
    scrollRequests w' = [IntoView 11%nat] ∧
    isActive w' 8%nat ∧ ¬ isActive w' 7%nat.
Proof.
  destruct (anchor_click_resolved samplePage firstVisit 8%nat 11%nat eq_refl eq_refl)
    as (w' & E & Hs & _ & Ha & Hn & _).
  exists w'. split; [exact E|]. split; [exact Hs|]. split; [exact Ha|].
  apply Hn; [compute_done | discriminate].
Defined.

(** ** The mobile menu *)

Lemma toggleTheme_never_activates (pg : Page) (e : ElemId) (w : World) :
  "active" ∉ classes w e → "active" ∉ classes (ThemeManager_toggleTheme pg w).1 e.
Proof.
  intros Hc. unfold ThemeManager_toggleTheme, ThemeManager_setTheme. js_run.
  destruct (themeIcon (manager w)) as [i|] eqn:Hi;
    destruct (themeToggle (manager w));
    destruct (bool_decide (currentTheme (manager w) = "light")); simpl;
    try exact Hc;
    (unfold classes; simpl; destruct (decide (e = i)) as [->|Hne];
     [rewrite lookup_insert_eq; compute_done
     |rewrite lookup_insert_ne by done; exact Hc]).
Qed.

(** X2.  Two clicks on the hamburger leave every element with the classes
    it had, and a click on a navigation link closes the menu: after the
    whole click event the navigation container does not carry [active]. *)
Theorem mobile_menu_toggles_and_closes (pg : Page) (w : World) (nl link : ElemId) :
  navLinks pg = Some nl →
  link ∈ querySelectorAll pg ".nav-links a" →
  (∃ w2, (hamburger_onClick pg ;; hamburger_onClick pg) w = (w2, Return tt) ∧
     ∀ e c, c ∈ classes w2 e ↔ c ∈ classes w e) ∧
  (∃ w1, hamburger_onClick pg w = (w1, Return tt) ∧
     ("active" ∈ classes w1 nl ↔ "active" ∉ classes w nl)) ∧
  "active" ∉ classes (step pg (Click link) w) nl.
Proof.
  intros Hnl Hlink.
  assert (Htoggle : ∀ w0, ∃ cl, hamburger_onClick pg w0 = (set_classList cl w0, Return tt) ∧
            ∀ e c, c ∈ classes (set_classList cl w0) e ↔
              if bool_decide ("active" ∈ classes w0 nl)
              then c ∈ classes w0 e ∧ ¬ (e = nl ∧ c = "active")
              else c ∈ classes w0 e ∨ (e = nl ∧ c = "active")).
  { intros w0. unfold hamburger_onClick, classList_toggle, deref, mbind, JS_bind,
      gets, mret, JS_ret. rewrite Hnl. cbn beta iota.
    destruct (decide ("active" ∈ classes w0 nl)) as [Ha|Ha];
      [rewrite !(bool_decide_eq_true_2 _ Ha) | rewrite !(bool_decide_eq_false_2 _ Ha)].
    - destruct (classList_remove_shape nl "active" w0) as [cl E].
      pose proof (elem_classes_remove nl "active" w0) as R. rewrite E in R |- *.
      exists cl. split; [done|]. exact R.
    - destruct (classList_add_shape nl "active" w0) as [cl E].
      pose proof (elem_classes_add nl "active" w0) as A. rewrite E in A |- *.
      exists cl. split; [done|]. exact A. }
  split; [|split].
  - destruct (Htoggle w) as (cl1 & E1 & H1).
    destruct (Htoggle (set_classList cl1 w)) as (cl2 & E2 & H2).
    unfold mbind, JS_bind. rewrite E1, E2. eexists. split; [reflexivity|].
    intros e c.
    destruct (decide ("active" ∈ classes w nl)) as [Ha|Ha].
    + rewrite (bool_decide_eq_true_2 _ Ha) in H1.
      assert (Hb : "active" ∉ classes (set_classList cl1 w) nl)
        by (rewrite H1; intros [_ Hn]; by apply Hn).
      rewrite (bool_decide_eq_false_2 _ Hb) in H2. rewrite H2, H1.
      destruct (decide (e = nl ∧ c = "active")) as [[-> ->]|]; tauto.
    + rewrite (bool_decide_eq_false_2 _ Ha) in H1.
      assert (Hb : "active" ∈ classes (set_classList cl1 w) nl)
        by (rewrite H1; auto).
      rewrite (bool_decide_eq_true_2 _ Hb) in H2. rewrite H2, H1.
      destruct (decide (e = nl ∧ c = "active")) as [[-> ->]|Hne]; [|tauto].
      split; [intros [_ Hn]; by destruct Hn | done].
  - destruct (Htoggle w) as (cl1 & E1 & H1). eexists. split; [exact E1|].
    rewrite H1. case_bool_decide as Ha.
    + split; [intros [_ Hn]; by destruct Hn | done].
    + split; [done | auto].
  - cbn [step]. unfold click_listeners.
    rewrite (bool_decide_eq_true_2 _ Hlink). rewrite !dispatch_app_list.
    set (w1 := dispatch _ (dispatch _ (set_defaultPrevented false w))).
    assert (Hclosed : "active" ∉ classes (dispatch [navLink_onClick pg] w1) nl).
    { cbn [dispatch foldl]. unfold report, navLink_onClick. rewrite Hnl.
      destruct (classList_remove_shape nl "active" w1) as [cl E].
      pose proof (elem_classes_remove nl "active" w1 nl "active") as R.
      rewrite E in R |- *. cbn [fst] in R. rewrite R. tauto. }
    destruct (_ && _); cbn [dispatch foldl]; [|exact Hclosed].
    unfold report at 1.
    pose proof (toggleTheme_never_activates pg nl _ Hclosed) as Ht.
    destruct (ThemeManager_toggleTheme pg _) as [w3 [a|err]]; exact Ht.
Qed.

(** ** Local storage *)

Global Instance storage_elsewhere_preorder : PreOrder storage_elsewhere.
Proof.
  split.
  - intros w key _. reflexivity.
  - intros w1 w2 w3 H12 H23 key Hk. rewrite (H23 key Hk). by apply H12.
Qed.

Ltac storage_leaf :=
  idtac;
  lazymatch goal with
  | |- preserves _ (modify _) =>
      apply preserves_modify; intros ? ? ?; repeat case_bool_decide; simpl;
      rewrite ?lookup_insert_ne by done; reflexivity
  end.

(** X3.  The script writes local storage under the key [theme] only: in
    every session, at every moment, every other key holds what it held
    before the script was loaded. *)
Theorem storage_touched_at_theme_only
    (pg : Page) (w0 : World) (before after : list Event) (key : string) :
  key ≠ "theme" →
  localStorage (session pg w0 before after) !! key = localStorage w0 !! key.
Proof.
  intros Hk.
  assert (H : storage_elsewhere w0 (session pg w0 before after)); [|by apply H].
  apply session_preserves.
  - apply _.
  - repeat split; intros v w k _; reflexivity.
  - solve_listeners storage_leaf.
  - unfold_script; repeat preserves_step storage_leaf.
  - unfold_script; repeat preserves_step storage_leaf.
  - unfold_script; repeat preserves_step storage_leaf.
  - unfold_script; repeat preserves_step storage_leaf.
Qed.

(** ** The theme through a session *)

Section ThemeSession.
Context (pg : Page).

(** X4.  In every session a notification of the system colour scheme
    changes nothing but the recorded preference: before initialization
    the listener is not registered, and after it an entry is stored, so
    the guard of the listener never lets the preference through. *)
Theorem system_notifications_inert
    (w0 : World) (before after : list Event) (matches : bool) :
  pristine w0 →
  let w := session pg w0 before after in
  step pg (MediaChange matches) w = set_prefersDark matches w.
Proof.
  intros H0 w. cbn [step]. destruct (themeListeners w) eqn:HL; [|done].
  destruct (session_synced pg w0 before after H0 HL) as (_ & _ & Hne & Hs & _).
  fold w in Hne, Hs. cbn [dispatch foldl]. unfold report.
  rewrite onSystemThemeChange_stored; [done|].
  change (storedTheme (set_prefersDark matches w)) with (storedTheme w).
  rewrite Hs. simpl. by case_bool_decide.
Qed.

Lemma step_unlistened_view ev w :
  themeListeners w = false → themeView (step pg ev w) = themeView w.
Proof.
  intros HL.
  assert (Hv : ∀ hs w', Forall (keeps themeView) hs → themeView w' = themeView w →
                themeView (dispatch hs w') = themeView w).
  { intros hs w' Hhs <-. by apply keeps_dispatch. }
  destruct ev; cbn [step].
  - apply Hv; [|done]. unfold click_listeners. rewrite HL. cbn [andb].
    each_listener.
    + apply anchor_onClick_theme.
    + apply hamburger_onClick_theme.
    + apply navLink_onClick_theme.
  - case_bool_decide; [|done]. apply Hv; [|done]. each_listener. solve_keeps.
  - case_bool_decide; [|done]. apply Hv; [|done]. each_listener. solve_keeps.
  - done.
  - destruct (getElementById pg "contactForm"); [|done].
    apply Hv; [|done]. each_listener. apply contactForm_onSubmit_theme.
  - apply Hv; [|done]. each_listener.
    + apply navbar_onScroll_theme.
    + apply activeLink_onScroll_theme.
    + apply scrollTop_onScroll_theme.
  - rewrite HL. done.
  - apply Hv; [|done]. each_listener. apply observer_callback_theme.
  - destruct (timers w !! n) as [[d task]|]; [|done].
    apply Hv; [|done]. each_listener. apply run_task_theme.
Qed.

Lemma run_unlistened_view evs w :
  themeListeners w = false → themeView (run pg evs w) = themeView w.
Proof.
  revert w. induction evs as [|ev evs IH]; intros w HL; simpl; [done|].
  pose proof (step_unlistened_view ev w HL) as E.
  rewrite IH; [done|]. unfold themeView in E. congruence.
Qed.

(** Loading the page: what the stored entry becomes. *)
Lemma load_resolves_theme w0 before t i :
  getElementById pg "themeToggle" = Some t → getElementById pg "themeIcon" = Some i →
  themeListeners w0 = false →
  let w := session pg w0 before [] in
  let theme := or_else (storedTheme w0) "light" in
  themeListeners w = true ∧ manager w = mkThemeManager (Some t) (Some i) theme ∧
  dataTheme pg w = Some theme ∧ storedTheme w = Some theme.
Proof.
  intros Ht Hi HL w theme. unfold w, session. cbn [run foldl].
  set (w1 := run pg before (report (main pg) w0)).
  assert (Hv1 : themeView w1 = themeView w0).
  { unfold w1. rewrite run_unlistened_view.
    - apply keeps_report; [apply main_theme | done].
    - pose proof (keeps_report themeView (main pg) w0 (main_theme pg) (λ _ _, eq_refl)) as E.
      unfold themeView in E. congruence. }
  assert (Hs1 : storedTheme w1 = storedTheme w0).
  { unfold storedTheme, themeView in *. congruence. }
  destruct (ThemeManager_new_present pg w1 t i Ht Hi) as (w2 & E & Hm & Hd & Hs & Hl & _).
  rewrite Hs1 in Hm, Hd, Hs. fold theme in Hm, Hd, Hs.
  unfold domContentLoaded. cbn [dispatch foldl].
  assert (Hr : report (ThemeManager_new pg) w1 = w2) by (unfold report; by rewrite E).
  rewrite Hr.
  assert (Hv : themeView (report (start_animations pg) (report (observe_all pg) w2))
               = themeView w2).
  { rewrite keeps_report; [|apply start_animations_theme|done].
    apply keeps_report; [apply observe_all_theme|done]. }
  unfold themeView, dataTheme, storedTheme in *.
  injection Hv as -> -> -> ->. auto.
Qed.

(** X5.  The choice survives a reload.  When a session in which
    initialization completed ends and the page is loaded again with the
    local storage it left, the new session starts, whatever happens
    before [DOMContentLoaded], with the [currentTheme] of the old one, and
    [data-theme] and the stored entry agree with it. *)
Theorem theme_survives_reload
    (w0 w0' : World) (before after before' : list Event) (t i : ElemId) :
  getElementById pg "themeToggle" = Some t → getElementById pg "themeIcon" = Some i →
  pristine w0 → pristine w0' →
  let w := session pg w0 before after in
  themeListeners w = true →
  localStorage w0' = localStorage w →
  let w' := session pg w0' before' [] in
  themeListeners w' = true ∧
  currentTheme (manager w') = currentTheme (manager w) ∧
  dataTheme pg w' = Some (currentTheme (manager w)) ∧
  storedTheme w' = Some (currentTheme (manager w)).
Proof.
  intros Ht Hi H0 [HL0' _] w HL Hls w'.
  destruct (session_synced pg w0 before after H0 HL) as (_ & _ & Hne & Hs & _).
  fold w in Hne, Hs.
  destruct (load_resolves_theme w0' before' t i Ht Hi HL0') as (Hl & Hm & Hd & Hst).
  fold w' in Hl, Hm, Hd, Hst.
  assert (Hres : or_else (storedTheme w0') "light" = currentTheme (manager w)).
  { unfold storedTheme in *. rewrite Hls, Hs. simpl. by case_bool_decide. }
  rewrite Hres in Hm, Hd, Hst. rewrite Hm. auto.
Qed.

(** X6.  The stored entry is not validated.  A non-empty entry that is
    not ['light'] becomes [currentTheme] and [data-theme] as it is; the
    first toggle then gives ['light'] and the second ['dark'], which is
    stored.  So the entry is gone after the first toggle, and unless it
    is ['dark'] itself two toggles do not bring it back: [currentTheme],
    [data-theme] and the stored entry all differ from it. *)
Theorem stored_entry_not_validated (w : World) (t i : ElemId) (v : string) :
  getElementById pg "themeToggle" = Some t → getElementById pg "themeIcon" = Some i →
  storedTheme w = Some v → v ≠ "" → v ≠ "light" →
  ∃ w1 w2 w3,
    ThemeManager_new pg w = (w1, Return tt) ∧
    ThemeManager_toggleTheme pg w1 = (w2, Return tt) ∧
    ThemeManager_toggleTheme pg w2 = (w3, Return tt) ∧
    currentTheme (manager w1) = v ∧ dataTheme pg w1 = Some v ∧
    currentTheme (manager w2) = "light" ∧ dataTheme pg w2 = Some "light" ∧
    currentTheme (manager w3) = "dark" ∧ dataTheme pg w3 = Some "dark" ∧
    storedTheme w3 = Some "dark" ∧
    currentTheme (manager w2) ≠ v ∧ dataTheme pg w2 ≠ Some v ∧
    (v ≠ "dark" →
     currentTheme (manager w3) ≠ v ∧ dataTheme pg w3 ≠ Some v ∧
     storedTheme w3 ≠ Some v).
Proof.
  intros Ht Hi Hs Hne Hnl.
  destruct (ThemeManager_new_present pg w t i Ht Hi) as (w1 & E1 & Hm1 & Hd1 & _).
  rewrite Hs in Hm1, Hd1. simpl in Hm1, Hd1.
  rewrite (bool_decide_eq_true_2 _ Hne) in Hm1, Hd1.
  destruct (toggleTheme_present pg w1 t i) as (w2 & E2 & Hm2 & Hd2 & _);
    [by rewrite Hm1 | by rewrite Hm1 |].
  rewrite Hm1 in Hm2, Hd2. simpl in Hm2, Hd2.
  rewrite (bool_decide_eq_false_2 _ Hnl) in Hm2, Hd2.
  destruct (toggleTheme_present pg w2 t i) as (w3 & E3 & Hm3 & Hd3 & Hs3 & _);
    [by rewrite Hm2 | by rewrite Hm2 |].
  rewrite Hm2 in Hm3, Hd3, Hs3. simpl in Hm3, Hd3, Hs3.
  exists w1, w2, w3. rewrite Hm1, Hm2, Hm3, Hd2, Hd3, Hs3. simpl.
  repeat split; try done; congruence.
Qed.

(** X7.  The affordance of the toggle reverts.  A call of [toggleTheme]
    sets the transform of the control to a full turn and leaves one more
    pending timer, of 300ms; when that timer fires the transform is
    empty again, the timer is gone, no error is reported and the theme
    state is as the toggle left it. *)
Theorem toggle_affordance_reverts (w : World) (t i : ElemId) :
  themeToggle (manager w) = Some t → themeIcon (manager w) = Some i →
  ∃ w1, ThemeManager_toggleTheme pg w = (w1, Return tt) ∧
    style w1 !! (t, "transform") = Some "rotate(360deg)" ∧
    timers w1 = timers w ++ [(300%nat, ResetToggleTransform)] ∧
    let w2 := step pg (Timeout (length (timers w))) w1 in
    style w2 !! (t, "transform") = Some "" ∧
    timers w2 = timers w ∧
    errors w2 = errors w1 ∧
    themeView w2 = themeView w1.
Proof.
  intros Ht Hi.
  destruct (toggleTheme_present pg w t i Ht Hi)
    as (w1 & E & Hm & _ & _ & _ & _ & Htm & Hst).
  exists w1. split; [exact E|]. split; [by rewrite Hst, lookup_insert_eq|].
  split; [exact Htm|]. cbn [step].
  assert (Hlook : timers w1 !! length (timers w) = Some (300%nat, ResetToggleTransform)).
  { rewrite Htm. by apply list_lookup_middle. }
  rewrite Hlook. cbn [dispatch foldl]. unfold report, run_task.
  unfold this_themeToggle, deref, style_assign, mbind, JS_bind, gets, modify, mret, JS_ret.
  cbn [manager set_timers]. rewrite Hm. simpl.
  rewrite lookup_insert_eq. split; [done|]. split; [|done].
  rewrite Htm, delete_middle. apply app_nil_r.
Qed.

Global Instance valid_kept_preorder : PreOrder valid_kept.
Proof.
  split.
  - intros w H. exact H.
  - intros w1 w2 w3 H12 H23 H. auto.
Qed.

Lemma keeps_valid {A} (m : JS A) : keeps themeView m → preserves valid_kept m.
Proof.
  intros Hm w Hv. specialize (Hm w). unfold same, themeView in Hm.
  unfold valid_theme in *. by injection Hm as _ -> _ _.
Qed.

Lemma toggleTheme_valid w : valid_theme (ThemeManager_toggleTheme pg w).1.
Proof.
  unfold ThemeManager_toggleTheme, ThemeManager_setTheme, valid_theme. js_run.
  destruct (bool_decide (currentTheme (manager w) = "light"));
    destruct (themeIcon (manager w)), (themeToggle (manager w));
    repeat case_bool_decide; simpl; auto.
Qed.

(** X8.  [toggleTheme] always leaves [currentTheme] at ['light'] or
    ['dark'], also when it throws; and once [currentTheme] is one of the
    two, it is one of the two after every sequence of events. *)
Theorem theme_stays_valid :
  (∀ w, valid_theme (ThemeManager_toggleTheme pg w).1) ∧
  (∀ evs w, valid_theme w → valid_theme (run pg evs w)).
Proof.
  split; [apply toggleTheme_valid|].
  intros evs w. apply (run_preserves pg valid_kept).
  - repeat split; intros v w' H; exact H.
  - repeat split; intros.
    + apply keeps_valid, anchor_onClick_theme.
    + apply keeps_valid, hamburger_onClick_theme.
    + apply keeps_valid, navLink_onClick_theme.
    + intros w' _. apply toggleTheme_valid.
    + apply keeps_valid. solve_keeps.
    + apply keeps_valid. solve_keeps.
    + apply keeps_valid, contactForm_onSubmit_theme.
    + apply keeps_valid, navbar_onScroll_theme.
    + apply keeps_valid, activeLink_onScroll_theme.
    + apply keeps_valid, scrollTop_onScroll_theme.
    + intros w' Hv. destruct (truthy (storedTheme w')) eqn:Hs.
      * by rewrite onSystemThemeChange_stored.
      * rewrite onSystemThemeChange_unstored by done.
        unfold ThemeManager_setTheme, valid_theme. js_run.
        destruct (themeIcon (manager w')), (themeToggle (manager w')), matches;
          simpl; auto.
    + apply keeps_valid, observer_callback_theme.
    + apply keeps_valid, run_task_theme.
Qed.

(** X9.  With both controls present [setTheme] leaves the icon with
    exactly the two classes of the sun (for ['dark']) or of the moon (for
    any other theme), whatever classes it had, and labels the toggle with
    the mode a click switches to. *)
Theorem setTheme_icon_and_label (theme : string) (w : World) (t i : ElemId) :
  themeToggle (manager w) = Some t → themeIcon (manager w) = Some i →
  let w' := (ThemeManager_setTheme pg theme w).1 in
  classes w' i = (if bool_decide (theme = "dark")
                  then ["fas"; "fa-sun"] else ["fas"; "fa-moon"]) ∧
  attributes w' !! (t, "aria-label") =
    Some (if bool_decide (theme = "dark")
          then "Switch to light mode" else "Switch to dark mode") ∧
  (∀ e, e ≠ i → classes w' e = classes w e).
Proof.
  intros Ht Hi. unfold ThemeManager_setTheme. js_run. rewrite Ht, Hi. simpl.
  unfold classes. case_bool_decide; simpl;
    rewrite !lookup_insert_eq;
    (split; [done|]; split; [done|]; intros e He; by rewrite lookup_insert_ne).
Qed.

End ThemeSession.

(** ** The contact form, accepted *)

(** X10.  When [name], [email] and [message] all hold a non-empty string,
    the submit handler prevents the default action, shows the thanks and
    resets the form: every control holds its default value, the controls
    and their names are the same, and nothing else changes. *)
Theorem contactForm_accepts_filled (w : World) (name email message : string) :
  FormData_get (formControls w) "name" = Some name → name ≠ "" →
  FormData_get (formControls w) "email" = Some email → email ≠ "" →
  FormData_get (formControls w) "message" = Some message → message ≠ "" →
  ∃ w', contactForm_onSubmit w = (w', Return tt) ∧
    alerts w' = alerts w ++ ["Thank you for your message! I'll get back to you soon."] ∧
    Forall (λ c, fc_value c = fc_default c) (formControls w') ∧
    fc_name <$> formControls w' = fc_name <$> formControls w ∧
    fc_default <$> formControls w' = fc_default <$> formControls w ∧
    w' = set_formControls (formControls w')
           (set_alerts (alerts w') (set_defaultPrevented true w)).
Proof.
  intros Hn Hn' He He' Hm Hm'.
  unfold contactForm_onSubmit. js_run. rewrite Hn, He, Hm. simpl.
  rewrite !bool_decide_eq_true_2 by done. simpl.
  eexists. split; [reflexivity|]. simpl. split; [done|].
  split; [|split; [|split; [|done]]].
  - apply Forall_fmap, Forall_forall. by intros c _.
  - rewrite <- list_fmap_compose. by apply list_fmap_ext.
  - rewrite <- list_fmap_compose. by apply list_fmap_ext.
Qed.

(** ** The observer through the events *)

Lemma observe_all_observed (pg : Page) (w : World) :
  let targets := querySelectorAll pg "section, .skill-card, .project-card" in
  ∃ w', observe_all pg w = (w', Return tt) ∧
    (∀ e, e ∈ observed w' ↔ e ∈ observed w ∨ e ∈ targets) ∧
    (NoDup (observed w) → NoDup (observed w')) ∧
    w' = set_observed (observed w') w.
Proof.
  intros targets. unfold observe_all. fold targets. clearbody targets.
  revert w. induction targets as [|x l IH]; intros w; cbn [forEach].
  - exists w. split; [done|]. split; [|split; [done|by destruct w]].
    intros e. rewrite elem_of_nil. tauto.
  - unfold mbind, JS_bind, observer_observe, modify.
    set (w1 := if bool_decide _ then _ else _).
    assert (H1 : (∀ e, e ∈ observed w1 ↔ e ∈ observed w ∨ e = x) ∧
                 (NoDup (observed w) → NoDup (observed w1)) ∧
                 w1 = set_observed (observed w1) w).
    { unfold w1. case_bool_decide as Hx; simpl.
      - split; [|split; [done|by destruct w]].
        intros e. split; [auto|]. by intros [?| ->].
      - split; [|split; [|done]].
        + intros e. rewrite elem_of_app, list_elem_of_singleton. tauto.
        + intros Hnd. apply NoDup_app. split; [done|]. split; [|apply NoDup_singleton].
          intros e He ->%list_elem_of_singleton. done. }
    destruct H1 as (Hin1 & Hnd1 & Hw1).
    destruct (IH w1) as (w' & E & Hin & Hnd & Hw').
    exists w'. split; [exact E|]. split; [|split].
    + intros e. rewrite Hin, Hin1, elem_of_cons. tauto.
    + auto.
    + rewrite Hw'. rewrite Hw1. by destruct w.
Qed.

(** X11.  An intersection report marks observed elements only: after the
    event an element carries a class exactly when it carried it before,
    or the class is [fade-in], the element is observed and an entry of
    the report says it intersects. *)
Theorem intersect_marks_observed_only
    (pg : Page) (w : World) (entries : list IntersectionEntry)
    (e : ElemId) (c : string) :
  c ∈ classes (step pg (Intersect entries) w) e ↔
  c ∈ classes w e ∨
  (c = "fade-in" ∧ e ∈ observed w ∧
   ∃ entry, entry ∈ entries ∧ target entry = e ∧ isIntersecting entry = true).
Proof.
  cbn [step dispatch foldl]. unfold report.
  set (seen := filter _ entries).
  destruct (observer_callback_classes seen w e c) as [Hret Hcl].
  destruct (observer_callback seen w) as [w' o]. simpl in Hret, Hcl. subst o.
  rewrite Hcl. unfold seen. split.
  - intros [H | (-> & entry & Hin & <- & Hi)]; [auto|].
    apply list_elem_of_filter in Hin as [Hobs Hin]. right. eauto 10.
  - intros [H | (-> & Hobs & entry & Hin & <- & Hi)]; [auto|].
    right. split; [done|]. exists entry. rewrite list_elem_of_filter. auto.
Qed.

(** X12.  In every session, once [DOMContentLoaded] has fired, the
    observed elements are the elements that match
    [section, .skill-card, .project-card], each observed once. *)
Theorem session_observes_selector
    (pg : Page) (w0 : World) (before after : list Event) :
  let w := session pg w0 before after in
  (∀ e, e ∈ observed w ↔
        e ∈ querySelectorAll pg "section, .skill-card, .project-card") ∧
  NoDup (observed w).
Proof.
  intros w.
  assert (Hlisten : listeners_preserve pg (same observed))
    by solve_listeners keeps_leaf.
  assert (Hframe : event_frame (same observed)) by (by repeat split).
  assert (Hrun : ∀ evs w', observed (run pg evs w') = observed w')
    by (intros evs w'; apply (run_preserves pg (same observed) Hframe Hlisten)).
  assert (Hmain : observed (report (main pg) w0) = []).
  { unfold report, main. js_run. by destruct (querySelector pg ".subtitle"). }
  unfold w, session. rewrite Hrun. unfold domContentLoaded. cbn [dispatch foldl].
  set (w1 := run pg before _).
  assert (H1 : observed w1 = []) by (unfold w1; by rewrite Hrun).
  set (w2 := report (ThemeManager_new pg) w1).
  assert (H2 : observed w2 = []).
  { rewrite <- H1. apply (preserves_report (same observed)); [|done].
    unfold_script; repeat preserves_step keeps_leaf. }
  destruct (observe_all_observed pg w2) as (w3 & E & Hin & Hnd & _).
  assert (Hr : report (observe_all pg) w2 = w3) by (unfold report; by rewrite E).
  rewrite Hr.
  assert (H4 : observed (report (start_animations pg) w3) = observed w3).
  { apply (preserves_report (same observed)); [|done].
    unfold_script; repeat preserves_step keeps_leaf. }
  rewrite H4. split.
  - intros e. rewrite Hin, H2, elem_of_nil. tauto.
  - apply Hnd. rewrite H2. constructor.
Qed.

(** ** The staggered cards *)

Lemma forEachFrom_setTimeout (k i : nat) (cards : list ElemId) (w : World) :
  forEachFrom i cards (λ card index, setTimeout (ShowCard card) (index * k)) w
  = (set_timers (timers w ++ imap (λ j card, ((i + j) * k, ShowCard card)%nat) cards) w,
     Return tt).
Proof.
  revert i w. induction cards as [|x l IH]; intros i w; cbn [forEachFrom].
  - simpl. rewrite app_nil_r. by destruct w.
  - unfold mbind, JS_bind, setTimeout, modify. rewrite IH. f_equal.
    rewrite imap_cons. cbn [timers set_timers]. rewrite <- app_assoc. cbn [app].
    rewrite Nat.add_0_r.
    rewrite (imap_ext _ ((λ j card, ((i + j) * k, ShowCard card)%nat) ∘ S) l)
      by (intros j c _; simpl; do 2 f_equal; lia).
    by destruct w.
Qed.

(** X13.  The last [DOMContentLoaded] listener schedules one timer for
    each card: the skill card at index [j] after [j * 100]ms and the
    project card at index [j] after [j * 150]ms, behind the timers already
    pending; when such a timer fires, the card gets opacity 1 and no
    translation. *)
Theorem start_animations_schedules (pg : Page) (w : World) :
  let skill := querySelectorAll pg ".skill-card" in
  let project := querySelectorAll pg ".project-card" in
  ∃ w', start_animations pg w = (w', Return tt) ∧
    timers w' = timers w
      ++ imap (λ j card, (j * 100, ShowCard card)%nat) skill
      ++ imap (λ j card, (j * 150, ShowCard card)%nat) project ∧
    (∀ hero, querySelector pg ".hero" = Some hero → "fade-in" ∈ classes w' hero) ∧
    (∀ card v, ∃ v', run_task pg (ShowCard card) v = (v', Return tt) ∧
       style v' !! (card, "opacity") = Some "1" ∧
       style v' !! (card, "transform") = Some "translateY(0)").
Proof.
  intros skill project. unfold start_animations. fold skill project.
  unfold mbind, JS_bind.
  set (first := match querySelector pg ".hero" with
                | Some hero => classList_add hero "fade-in" | None => mret tt end).
  assert (H1 : ∃ cl, first w = (set_classList cl w, Return tt) ∧
    ∀ hero, querySelector pg ".hero" = Some hero →
            "fade-in" ∈ classes (set_classList cl w) hero).
  { unfold first. destruct (querySelector pg ".hero") as [hero|].
    - destruct (classList_add_shape hero "fade-in" w) as [cl E].
      pose proof (elem_classes_add hero "fade-in" w hero "fade-in") as A.
      rewrite E in A. exists cl. split; [done|]. intros h [= <-]. apply A. auto.
    - exists (classList w). rewrite set_classList_same. split; [done|]. done. }
  destruct H1 as (cl & E1 & Hhero). rewrite E1.
  rewrite !forEachFrom_setTimeout. eexists. split; [reflexivity|].
  cbn [timers set_timers set_classList]. rewrite <- app_assoc.
  split; [done|]. split; [exact Hhero|].
  intros card v. unfold run_task. js_run. eexists. split; [reflexivity|]. simpl.
  rewrite lookup_insert_ne by congruence. by rewrite !lookup_insert_eq.
Qed.

(** ** The typing animation *)

Lemma substring_0_0 s : String.substring 0 0 s = "".
Proof. by destruct s. Qed.

Lemma substring_snoc s i :
  (i < String.length s)%nat →
  String.substring 0 i s +:+ String.substring i 1 s = String.substring 0 (S i) s.
Proof.
  revert i. induction s as [|c s IH]; intros i Hi; simpl in Hi; [lia|].
  destruct i as [|i].
  - simpl. by rewrite substring_0_0.
  - cbn [String.substring].
    change (String c (String.substring 0 i s +:+ String.substring i 1 s)
            = String c (String.substring 0 (S i) s)).
    f_equal. apply IH. lia.
Qed.

Lemma substring_full s : String.substring 0 (String.length s) s = s.
Proof. induction s as [|c s IH]; simpl; [done | by rewrite IH]. Qed.

Section Typing.
Context (pg : Page) (subtitle : ElemId).
Context (Hsub : querySelector pg ".subtitle" = Some subtitle).

Lemma typeWriter_types w :
  typed_prefix pg w → (typeIndex w < String.length (typeText w))%nat →
  ∃ w', typeWriter pg w = (w', Return tt) ∧
    typeIndex w' = S (typeIndex w) ∧ typeText w' = typeText w ∧
    typed_prefix pg w' ∧
    timers w' = timers w ++ [(100%nat, TypeWriter)].
Proof.
  unfold typed_prefix. rewrite Hsub. intros [Hp Hle] Hlt.
  unfold typeWriter. rewrite Hsub. js_run.
  rewrite (bool_decide_eq_true_2 _ Hlt).
  eexists. split; [reflexivity|]. simpl. rewrite lookup_insert_eq. simpl.
  rewrite Hp, substring_snoc by done. repeat split; auto; lia.
Qed.

Lemma typeWriter_done w :
  (String.length (typeText w) ≤ typeIndex w)%nat →
  typeWriter pg w = (w, Return tt).
Proof.
  intros Hle. unfold typeWriter. rewrite Hsub. js_run.
  rewrite bool_decide_eq_false_2 by lia. done.
Qed.

Lemma typing_state n w :
  typed_prefix pg w →
  let i := Nat.min (typeIndex w + n) (String.length (typeText w)) in
  typeIndex (typing pg n w) = i ∧
  typeText (typing pg n w) = typeText w ∧
  typed_prefix pg (typing pg n w) ∧
  timers (typing pg n w) = timers w ++ replicate (i - typeIndex w) (100%nat, TypeWriter).
Proof.
  intros Hw. induction n as [|n IH].
  - simpl. pose proof Hw as Hw'. unfold typed_prefix in Hw'. rewrite Hsub in Hw'.
    destruct Hw' as [_ Hle]. rewrite Nat.add_0_r, Nat.min_l by done.
    rewrite Nat.sub_diag. simpl. by rewrite app_nil_r.
  - destruct IH as (Hi & Ht & Hp & Htm).
    pose proof Hw as Hw'. unfold typed_prefix in Hw'. rewrite Hsub in Hw'.
    destruct Hw' as [_ Hle].
    change (typing pg (S n) w) with ((typeWriter pg (typing pg n w)).1).
    destruct (decide (typeIndex w + n < String.length (typeText w))%nat) as [Hlt|Hge].
    + destruct (typeWriter_types (typing pg n w) Hp) as (w' & E & Hi' & Ht' & Hp' & Htm').
      { rewrite Hi, Ht. lia. }
      rewrite E. cbn [fst]. rewrite Hi', Ht', Htm', Htm, Hi, Ht.
      rewrite !Nat.min_l by lia.
      split; [lia|]. split; [done|]. split; [done|].
      rewrite <- app_assoc. f_equal.
      replace (typeIndex w + S n - typeIndex w)%nat with (S n) by lia.
      replace (typeIndex w + n - typeIndex w)%nat with n by lia.
      by rewrite replicate_S_end.
    + rewrite typeWriter_done by (rewrite Hi, Ht; lia). cbn [fst].
      rewrite Hi, Ht, Htm. rewrite !Nat.min_r by lia. done.
Qed.

(** X14.  The typing animation gives the subtitle back.  The script
    empties the subtitle and schedules the first step after 1000ms; after
    [n] steps the subtitle shows the first [n] characters of its original
    text, each step that types schedules the next after 100ms, and once
    the text is complete a step changes nothing and schedules nothing. *)
Theorem typing_restores_subtitle (w : World) (n : nat) :
  let text := default "" (textContent w !! subtitle) in
  let w1 := (main pg w).1 in
  let shown := Nat.min n (String.length text) in
  textContent w1 !! subtitle = Some "" ∧
  timers w1 = timers w ++ [(1000%nat, TypeWriter)] ∧
  default "" (textContent (typing pg n w1) !! subtitle) = String.substring 0 shown text ∧
  timers (typing pg n w1) = timers w1 ++ replicate shown (100%nat, TypeWriter) ∧
  ((String.length text ≤ n)%nat →
   default "" (textContent (typing pg n w1) !! subtitle) = text ∧
   typeWriter pg (typing pg n w1) = (typing pg n w1, Return tt)).
Proof.
  intros text w1 shown.
  assert (H1 : textContent w1 !! subtitle = Some "" ∧ typeText w1 = text ∧
               typeIndex w1 = 0%nat ∧ timers w1 = timers w ++ [(1000%nat, TypeWriter)]).
  { unfold w1, main. rewrite Hsub. js_run. by rewrite lookup_insert_eq. }
  destruct H1 as (Htc & Htx & Hix & Htm).
  assert (Hp : typed_prefix pg w1).
  { unfold typed_prefix. rewrite Hsub, Htc, Hix. simpl.
    rewrite substring_0_0. split; [done | lia]. }
  destruct (typing_state n w1 Hp) as (Hi & Ht & Hp' & Htm').
  rewrite Hix, Htx in Hi, Htm'. simpl in Hi, Htm'. rewrite Nat.sub_0_r in Htm'.
  fold shown in Hi, Htm'.
  pose proof Hp' as Hp''. unfold typed_prefix in Hp''. rewrite Hsub in Hp''.
  destruct Hp'' as [Hshow _]. rewrite Hi, Ht, Htx in Hshow.
  split; [exact Htc|]. split; [exact Htm|]. split; [exact Hshow|].
  split; [exact Htm'|].
  intros Hn. assert (shown = String.length text) as Hs by (unfold shown; lia).
  split.
  - rewrite Hshow, Hs. apply substring_full.
  - apply typeWriter_done. rewrite Hi, Ht, Htx. lia.
Qed.

End Typing.

Global Instance typed_kept_preorder (pg : Page) : PreOrder (typed_kept pg).
Proof.
  split.
  - intros w H. exact H.
  - intros w1 w2 w3 H12 H23 H. auto.
Qed.

Lemma keeps_typed (pg : Page) {A} (m : JS A) :
  keeps typingView m → preserves (typed_kept pg) m.
Proof.
  intros Hm w Hw. specialize (Hm w). unfold same, typingView in Hm.
  unfold typed_prefix in *. injection Hm as -> -> ->. exact Hw.
Qed.

(** X15.  Whatever events arrive, and in whatever order the timers fire,
    the subtitle shows a prefix of its original text: in every session the
    text on display is the first [typeIndex] characters of the text the
    script read when it was loaded, and [typeIndex] is at most its
    length. *)
Theorem subtitle_shows_a_prefix (pg : Page) (w0 : World) (before after : list Event) :
  typed_prefix pg (session pg w0 before after) ∧
  ∀ subtitle, querySelector pg ".subtitle" = Some subtitle →
    typeText (session pg w0 before after) = default "" (textContent w0 !! subtitle).
Proof.
  assert (Hframe : event_frame (typed_kept pg)) by (repeat split; intros v w H; exact H).
  assert (Hlisten : listeners_preserve pg (typed_kept pg)).
  { repeat split; intros;
      lazymatch goal with
      | |- preserves _ (run_task _ _) => idtac
      | |- _ => apply keeps_typed; unfold keeps; unfold_script;
                repeat preserves_step keeps_leaf
      end.
    match goal with |- preserves _ (run_task _ ?t) => destruct t end.
    - apply keeps_typed; unfold keeps; unfold_script; repeat preserves_step keeps_leaf.
    - intros w Hw. unfold run_task.
      destruct (querySelector pg ".subtitle") as [sub|] eqn:Hs;
        [|by unfold typed_prefix; rewrite Hs].
      destruct (decide (typeIndex w < String.length (typeText w))%nat) as [Hlt|Hge].
      + destruct (typeWriter_types pg sub Hs w Hw Hlt) as (w' & E & _ & _ & Hp & _).
        by rewrite E.
      + rewrite (typeWriter_done pg sub Hs) by lia. exact Hw.
    - apply keeps_typed; unfold keeps; unfold_script; repeat preserves_step keeps_leaf. }
  assert (Hdcl : ∀ w, typed_kept pg w (domContentLoaded pg w)).
  { intros w. apply (preserves_dispatch (typed_kept pg)); [|apply Hframe].
    repeat constructor; apply keeps_typed; unfold keeps; unfold_script;
      repeat preserves_step keeps_leaf. }
  assert (Hmain : typed_prefix pg (report (main pg) w0) ∧
            ∀ subtitle, querySelector pg ".subtitle" = Some subtitle →
              typeText (report (main pg) w0) = default "" (textContent w0 !! subtitle)).
  { unfold typed_prefix, report, main.
    destruct (querySelector pg ".subtitle") as [sub|]; [|done].
    js_run. rewrite lookup_insert_eq. simpl. rewrite substring_0_0.
    split; [split; [done|lia]|]. by intros s [= <-]. }
  destruct Hmain as [Hm Ht]. split.
  - unfold session. apply (run_preserves pg (typed_kept pg) Hframe Hlisten).
    apply Hdcl. by apply (run_preserves pg (typed_kept pg) Hframe Hlisten).
  - intros sub Hs. rewrite <- (Ht sub Hs).
    assert (Hl : listeners_preserve pg (same typeText)) by solve_listeners keeps_leaf.
    assert (Hf : event_frame (same typeText)) by (by repeat split).
    unfold session.
    rewrite (run_preserves pg (same typeText) Hf Hl).
    transitivity (typeText (run pg before (report (main pg) w0)));
      [|apply (run_preserves pg (same typeText) Hf Hl)].
    apply (preserves_dispatch (same typeText)); [|done].
    repeat constructor; unfold_script; repeat preserves_step keeps_leaf.
Qed.

(** ** Scrolling without a navbar *)

Lemma navbar_absent_throws (pg : Page) (w : World) :
  querySelector pg ".navbar" = None →
  navbar_onScroll pg w = (w, Throw TypeError).
Proof.
  intros Hnb. unfold navbar_onScroll. js_run. rewrite Hnb.
  by case_bool_decide.
Qed.

Lemma scrollTop_onScroll_effect (pg : Page) (w : World) :
  ∃ st, scrollTop_onScroll pg w = (set_style st w, Return tt) ∧
    (querySelector pg ".scroll-top" = None → st = style w) ∧
    (∀ button, querySelector pg ".scroll-top" = Some button →
       st !! (button, "display")
       = Some (if bool_decide (300 < scrollY w) then "block" else "none")).
Proof.
  unfold scrollTop_onScroll. destruct (querySelector pg ".scroll-top") as [b|].
  - js_run. case_bool_decide; (eexists; split; [reflexivity|]);
      (split; [done|]); intros ? [= <-]; by rewrite lookup_insert_eq.
  - exists (style w). split; [by destruct w|]. split; [done|]. done.
Qed.

(** X16.  On a page without a [.navbar] element every scroll event
    reports a [TypeError] from the navbar listener, and the listeners
    registered after it still do their work: the navigation links are
    marked for the new offset, and the scroll-to-top button, when the page
    has one, is shown above 300px and hidden otherwise. *)
Theorem scroll_without_navbar (pg : Page) (w : World) (y : Z) :
  querySelector pg ".navbar" = None →
  let w' := step pg (Scroll y) w in
  scrollY w' = y ∧
  errors w' = errors w ++ [TypeError] ∧
  (∀ link, link ∈ querySelectorAll pg ".nav-links a" →
     isActive w' link ↔ targets w (activeTarget pg (set_scrollY y w)) link) ∧
  (∀ button, querySelector pg ".scroll-top" = Some button →
     style w' !! (button, "display")
     = Some (if bool_decide (300 < y) then "block" else "none")) ∧
  (querySelector pg ".scroll-top" = None → style w' = style w).
Proof.
  intros Hnb. cbn [step dispatch foldl].
  set (w0 := set_scrollY y w).
  assert (H1 : report (navbar_onScroll pg) w0 = set_errors (errors w ++ [TypeError]) w0).
  { unfold report. by rewrite navbar_absent_throws. }
  rewrite H1. set (w1 := set_errors _ w0).
  assert (H2 : ∃ cl, report (activeLink_onScroll pg) w1 = set_classList cl w1 ∧
            ∀ link, link ∈ querySelectorAll pg ".nav-links a" →
              isActive (set_classList cl w1) link ↔ targets w (activeTarget pg w0) link).
  { unfold report, activeLink_onScroll, mbind, JS_bind, gets.
    destruct (activeLink_loop (currentSection pg w1)
                (querySelectorAll pg ".nav-links a") w1) as (cl & E & Hin & _).
    rewrite E. exists cl. split; [done|].
    intros link Hl. rewrite (Hin link Hl).
    change (currentSection pg w1) with (currentSection pg w0).
    by rewrite activeTarget_current. }
  destruct H2 as (cl & H2 & Hact). rewrite H2. set (w2 := set_classList cl w1) in *.
  destruct (scrollTop_onScroll_effect pg w2) as (st & E3 & Hnone & Hsome).
  unfold report. rewrite E3. simpl.
  split; [done|]. split; [done|]. split; [exact Hact|]. split; [exact Hsome|].
  intros Hn. by rewrite (Hnone Hn).
Qed.

(** ** Sections in document order *)





(** ** A failed initialization *)

Lemma report_returns (h : JS unit) (w : World) :
  (h w).2 = Return tt → report h w = (h w).1.
Proof. unfold report. destruct (h w) as [w' [[]|e]]; simpl; [done|discriminate]. Qed.

Lemma start_animations_returns (pg : Page) (w : World) :
  (start_animations pg w).2 = Return tt.
Proof.
  unfold start_animations, mbind, JS_bind.
  set (first := match querySelector pg ".hero" with
                | Some hero => classList_add hero "fade-in" | None => mret tt end).
  assert (H1 : ∃ cl, first w = (set_classList cl w, Return tt)).
  { unfold first. destruct (querySelector pg ".hero") as [hero|].
    - apply classList_add_shape.
    - exists (classList w). by rewrite set_classList_same. }
  destruct H1 as (cl & ->). by rewrite !forEachFrom_setTimeout.
Qed.

(** X18.  A failed initialization is contained and final.  On a page
    without the toggle or without its icon, [DOMContentLoaded] reports
    exactly one error, the [TypeError] of the constructor, and the two
    other listeners run to their end; in the whole session no listener of
    the theme manager is ever registered, local storage keeps the entry
    it had, and [data-theme] stays at the theme the constructor resolved:
    no click and no notification changes the theme. *)
Theorem failed_init_is_contained
    (pg : Page) (w0 : World) (before after : list Event) :
  pristine w0 →
  getElementById pg "themeToggle" = None ∨ getElementById pg "themeIcon" = None →
  (∀ w, errors (domContentLoaded pg w) = errors w ++ [TypeError]) ∧
  let w := session pg w0 before after in
  themeListeners w = false ∧
  storedTheme w = storedTheme w0 ∧
  dataTheme pg w = Some (or_else (storedTheme w0) "light").
Proof.
  intros [HL0 _] Habsent.
  assert (Hnew : ∀ w, ∃ w2, report (ThemeManager_new pg) w
                           = set_errors (errors w ++ [TypeError]) w2 ∧
            localStorage w2 = localStorage w ∧
            themeListeners w2 = themeListeners w ∧
            dataTheme pg w2 = Some (or_else (storedTheme w) "light")).
  { intros w. destruct (ThemeManager_new_absent pg w Habsent) as (w2 & E & Hs & Hl & Hd).
    assert (He : errors w2 = errors w).
    { assert (K : keeps errors (ThemeManager_new pg))
        by (unfold keeps; unfold_script; repeat preserves_step keeps_leaf).
      specialize (K w). by rewrite E in K. }
    exists w2. unfold report. rewrite E, He. auto. }
  assert (Hrest : ∀ w, ∀ view : World → list JsError * (gmap string string *
                                  gmap (ElemId * string) string * bool),
            view = (λ w, (errors w, (localStorage w, attributes w, themeListeners w))) →
            view (report (start_animations pg) (report (observe_all pg) w)) = view w).
  { intros w view ->.
    destruct (observe_all_observed pg w) as (w3 & E3 & _).
    assert (R3 : report (observe_all pg) w = (observe_all pg w).1)
      by (apply report_returns; by rewrite E3).
    rewrite R3, (report_returns _ _ (start_animations_returns pg _)).
    assert (K1 : keeps (λ w, (errors w, (localStorage w, attributes w, themeListeners w)))
                   (observe_all pg))
      by (unfold keeps; unfold_script; repeat preserves_step keeps_leaf).
    assert (K2 : keeps (λ w, (errors w, (localStorage w, attributes w, themeListeners w)))
                   (start_animations pg))
      by (unfold keeps; unfold_script; repeat preserves_step keeps_leaf).
    rewrite (K2 _). apply K1. }
  split.
  - intros w. unfold domContentLoaded. cbn [dispatch foldl].
    destruct (Hnew w) as (w2 & E & _). rewrite E.
    specialize (Hrest (set_errors (errors w ++ [TypeError]) w2) _ eq_refl).
    by injection Hrest as ->.
  - intros w. unfold w, session.
    set (w1 := run pg before (report (main pg) w0)).
    assert (Hv1 : themeView w1 = themeView w0).
    { unfold w1. rewrite run_unlistened_view.
      - apply keeps_report; [apply main_theme | done].
      - pose proof (keeps_report themeView (main pg) w0 (main_theme pg) (λ _ _, eq_refl)) as E.
        unfold themeView in E. congruence. }
    unfold themeView in Hv1. injection Hv1 as Hs1 _ _ Hl1.
    destruct (Hnew w1) as (w2 & E & Hs2 & Hl2 & Hd2).
    set (w4 := domContentLoaded pg w1).
    assert (H4 : localStorage w4 = localStorage w0 ∧ themeListeners w4 = false ∧
                 dataTheme pg w4 = Some (or_else (storedTheme w0) "light")).
    { unfold w4, domContentLoaded. cbn [dispatch foldl]. rewrite E.
      specialize (Hrest (set_errors (errors w1 ++ [TypeError]) w2) _ eq_refl).
      injection Hrest as _ -> Ha ->. unfold dataTheme, storedTheme in *.
      rewrite Ha. cbn [localStorage attributes themeListeners set_errors].
      rewrite Hs2, Hl2, Hd2, Hs1, Hl1. auto. }
    destruct H4 as (Hs4 & Hl4 & Hd4).
    pose proof (run_unlistened_view pg after w4 Hl4) as Hv.
    unfold themeView in Hv. injection Hv as Hs _ Ha Hl.
    unfold storedTheme, dataTheme in *. rewrite Hs, Ha, Hl, Hs4. auto.
Qed.

Lemma failed_init_is_contained_witness :
  pristine firstVisit ∧ getElementById pageWithoutIcon "themeIcon" = None ∧
  let w := session pageWithoutIcon firstVisit [] [Click 1%nat; MediaChange true] in
  themeListeners w = false ∧ storedTheme w = None ∧
  dataTheme pageWithoutIcon w = Some "light".
Proof.
  assert (H0 : pristine firstVisit) by (split; reflexivity).
  assert (Hi : getElementById pageWithoutIcon "themeIcon" = None) by reflexivity.
  split; [exact H0|]. split; [exact Hi|].
  exact (proj2 (failed_init_is_contained pageWithoutIcon firstVisit []
                  [Click 1%nat; MediaChange true] H0 (or_intror Hi))).
Defined.

(** ** Instances on the sample pages *)

Lemma mobile_menu_toggles_and_closes_witness :
  navLinks samplePage = Some 5%nat ∧
  8%nat ∈ querySelectorAll samplePage ".nav-links a" ∧
  let opened := (hamburger_onClick samplePage loadedVisit).1 in
  "active" ∈ classes opened 5%nat ∧
  "active" ∉ classes (step samplePage (Click 8%nat) opened) 5%nat.
Proof.
  assert (Hnl : navLinks samplePage = Some 5%nat) by reflexivity.
  assert (Hl : 8%nat ∈ querySelectorAll samplePage ".nav-links a")
    by compute_done.
  split; [exact Hnl|]. split; [exact Hl|]. split.
  - destruct (mobile_menu_toggles_and_closes samplePage loadedVisit 5%nat 8%nat Hnl Hl)
      as (_ & (w1 & E & Ha) & _).
    rewrite E. apply Ha. compute_done.
  - apply (mobile_menu_toggles_and_closes samplePage _ 5%nat 8%nat Hnl Hl).
Defined.

Lemma storage_touched_at_theme_only_witness :
  "lang" ≠ "theme" ∧
  localStorage (session samplePage returningVisit [Scroll 450] [Click 1%nat; Submit])
    !! "lang" = Some "en".
Proof.
  assert (H : "lang" ≠ "theme") by discriminate.
  split; [exact H|].
  rewrite (storage_touched_at_theme_only samplePage returningVisit
             [Scroll 450] [Click 1%nat; Submit] "lang" H).
  reflexivity.
Defined.

Lemma system_notifications_inert_witness :
  pristine firstVisit ∧
  step samplePage (MediaChange false) (session samplePage firstVisit [] [Click 1%nat])
  = set_prefersDark false (session samplePage firstVisit [] [Click 1%nat]).
Proof.
  assert (H0 : pristine firstVisit) by (split; reflexivity).
  split; [exact H0|].
  exact (system_notifications_inert samplePage firstVisit [] [Click 1%nat] false H0).
Defined.

Lemma theme_survives_reload_witness :
  pristine firstVisit ∧ pristine returningVisit ∧
  let w := session samplePage firstVisit [] [Click 1%nat] in
  themeListeners w = true ∧
  localStorage (set_localStorage {["theme" := "dark"]} firstVisit) = localStorage w ∧
  let w' := session samplePage
              (set_localStorage {["theme" := "dark"]} firstVisit) [Scroll 10] [] in
  currentTheme (manager w') = currentTheme (manager w) ∧
  dataTheme samplePage w' = Some (currentTheme (manager w)).
Proof.
  assert (H0 : pristine firstVisit) by (split; reflexivity).
  assert (H0' : pristine returningVisit) by (split; reflexivity).
  assert (H0'' : pristine (set_localStorage {["theme" := "dark"]} firstVisit))
    by (split; reflexivity).
  split; [exact H0|]. split; [exact H0'|].
  intros w.
  assert (HL : themeListeners w = true) by (vm_compute; reflexivity).
  assert (Hls : localStorage (set_localStorage {["theme" := "dark"]} firstVisit)
                = localStorage w) by (vm_compute; reflexivity).
  split; [exact HL|]. split; [exact Hls|].
  intros w'.
  destruct (theme_survives_reload samplePage firstVisit
              (set_localStorage {["theme" := "dark"]} firstVisit)
              [] [Click 1%nat] [Scroll 10] 1%nat 2%nat eq_refl eq_refl H0 H0'' HL Hls)
    as (_ & H2 & H3 & _).
  split; [exact H2 | exact H3].
Defined.

Lemma stored_entry_not_validated_witness :
  storedTheme strangeVisit = Some "blue" ∧
  ∃ w1 w2 w3,
    ThemeManager_new samplePage strangeVisit = (w1, Return tt) ∧
    ThemeManager_toggleTheme samplePage w1 = (w2, Return tt) ∧
    ThemeManager_toggleTheme samplePage w2 = (w3, Return tt) ∧
    dataTheme samplePage w1 = Some "blue" ∧
    dataTheme samplePage w2 = Some "light" ∧
    dataTheme samplePage w3 = Some "dark" ∧
    currentTheme (manager w3) ≠ "blue" ∧
    storedTheme w3 ≠ Some "blue".
Proof.
  assert (Hs : storedTheme strangeVisit = Some "blue") by reflexivity.
  split; [exact Hs|].
  destruct (stored_entry_not_validated samplePage strangeVisit 1%nat 2%nat "blue"
              eq_refl eq_refl Hs)
    as (w1 & w2 & w3 & E1 & E2 & E3 & _ & H1 & _ & H2 & _ & H3 & _ & _ & _ & H4);
    [discriminate | discriminate |].
  destruct H4 as (H5 & _ & H6); [discriminate|].
  exists w1, w2, w3. auto 12.
Defined.

Lemma toggle_affordance_reverts_witness :
  themeToggle (manager loadedVisit) = Some 1%nat ∧
  ∃ w1, ThemeManager_toggleTheme samplePage loadedVisit = (w1, Return tt) ∧
    style w1 !! (1%nat, "transform") = Some "rotate(360deg)" ∧
    style (step samplePage (Timeout (length (timers loadedVisit))) w1)
      !! (1%nat, "transform") = Some "".
Proof.
  assert (Ht : themeToggle (manager loadedVisit) = Some 1%nat) by reflexivity.
  split; [exact Ht|].
  destruct (toggle_affordance_reverts samplePage loadedVisit 1%nat 2%nat Ht eq_refl)
    as (w1 & E & H1 & _ & H2 & _).
  exists w1. auto.
Defined.

Lemma theme_stays_valid_witness :
  valid_theme loadedVisit ∧
  valid_theme (run samplePage [Click 1%nat; MediaChange true; Scroll 700] loadedVisit) ∧
  valid_theme (ThemeManager_toggleTheme samplePage strangeVisit).1.
Proof.
  assert (H : valid_theme loadedVisit) by (left; reflexivity).
  destruct (theme_stays_valid samplePage) as [H1 H2].
  split; [exact H|]. split; [by apply H2 | apply H1].
Defined.

Lemma setTheme_icon_and_label_witness :
  themeToggle (manager loadedVisit) = Some 1%nat ∧
  themeIcon (manager loadedVisit) = Some 2%nat ∧
  let w' := (ThemeManager_setTheme samplePage "dark" loadedVisit).1 in
  classes w' 2%nat = ["fas"; "fa-sun"] ∧
  attributes w' !! (1%nat, "aria-label") = Some "Switch to light mode".
Proof.
  split; [reflexivity|]. split; [reflexivity|].
  destruct (setTheme_icon_and_label samplePage "dark" loadedVisit 1%nat 2%nat
              eq_refl eq_refl) as (H1 & H2 & _).
  split; [exact H1 | exact H2].
Defined.

Lemma contactForm_accepts_filled_witness :
  FormData_get (formControls filledVisit) "email" = Some "ada@example.org" ∧
  ∃ w', contactForm_onSubmit filledVisit = (w', Return tt) ∧
    alerts w' = ["Thank you for your message! I'll get back to you soon."] ∧
    Forall (λ c, fc_value c = fc_default c) (formControls w').
Proof.
  split; [reflexivity|].
  destruct (contactForm_accepts_filled filledVisit "Ada" "ada@example.org" "Hello")
    as (w' & E & Ha & Hf & _); try reflexivity; try discriminate.
  exists w'. auto.
Defined.

Lemma start_animations_schedules_witness :
  querySelector samplePage ".hero" = Some 10%nat ∧
  ∃ w', start_animations samplePage firstVisit = (w', Return tt) ∧
    timers w' = [(0%nat, ShowCard 13%nat); (0%nat, ShowCard 14%nat)] ∧
    "fade-in" ∈ classes w' 10%nat.
Proof.
  split; [reflexivity|].
  destruct (start_animations_schedules samplePage firstVisit) as (w' & E & Ht & Hh & _).
  exists w'. split; [exact E|]. split; [exact Ht|]. by apply Hh.
Defined.

Lemma typing_restores_subtitle_witness :
  querySelector portfolioPage ".subtitle" = Some 17%nat ∧
  let w1 := (main portfolioPage portfolioVisit).1 in
  textContent w1 !! 17%nat = Some "" ∧
  default "" (textContent (typing portfolioPage 5 w1) !! 17%nat) = "Cloud" ∧
  default "" (textContent (typing portfolioPage 20 w1) !! 17%nat) = "Cloud Engineer".
Proof.
  assert (Hs : querySelector portfolioPage ".subtitle" = Some 17%nat) by reflexivity.
  split; [exact Hs|]. intros w1.
  destruct (typing_restores_subtitle portfolioPage 17%nat Hs portfolioVisit 5)
    as (H1 & _ & H5 & _).
  destruct (typing_restores_subtitle portfolioPage 17%nat Hs portfolioVisit 20)
    as (_ & _ & _ & _ & H20).
  split; [exact H1|]. split; [exact H5|]. apply H20. vm_compute. lia.
Defined.

Lemma subtitle_shows_a_prefix_witness :
  querySelector portfolioPage ".subtitle" = Some 17%nat ∧
  let w := session portfolioPage portfolioVisit [Timeout 0] [Scroll 400; Timeout 2] in
  typed_prefix portfolioPage w ∧ typeText w = "Cloud Engineer".
Proof.
  split; [reflexivity|]. intros w.
  destruct (subtitle_shows_a_prefix portfolioPage portfolioVisit
              [Timeout 0] [Scroll 400; Timeout 2]) as [H1 H2].
  split; [exact H1|]. exact (H2 17%nat eq_refl).
Defined.

Lemma scroll_without_navbar_witness :
  querySelector pageWithoutNavbar ".navbar" = None ∧
  let w' := step pageWithoutNavbar (Scroll 700) loadedVisit in
  errors w' = errors loadedVisit ++ [TypeError] ∧
  isActive w' 8%nat ∧
  style w' !! (18%nat, "display") = Some "block".
Proof.
  assert (Hn : querySelector pageWithoutNavbar ".navbar" = None) by reflexivity.
  split; [exact Hn|]. intros w'.
  destruct (scroll_without_navbar pageWithoutNavbar loadedVisit 700 Hn)
    as (_ & He & Ha & Hb & _).
  split; [exact He|]. split.
  - apply Ha; [compute_done | vm_compute; reflexivity].
  - exact (Hb 18%nat eq_refl).
Defined.

